(** * The transaction explainer route of the UTXO transaction visualizer

    A shallow embedding of the route handler that explains a transaction
    by its id: the identifier check, the upstream reads with their call
    log, the input resolver, the aggregator, the change heuristic
    [guessChangeOutputIndex] and the handler [GET], followed by the
    properties of the specification that are settled on them.

    Conventions of the embedding.
    - A JavaScript string is the list of its UTF-16 code units.
    - A JavaScript [number] that carries an amount, an index or a count is
      an integer of [Z]; the handler only adds, subtracts and compares
      them, which is exact on the integers below 2^53.
    - [T | null], [T | undefined] and an optional field are [option T].
    - A promise that rejects is [None] in the [Fetch] monad, which also
      threads the log of the upstream paths that were requested.
    - During one request the upstream answers a path the same way each
      time it is asked. *)

From Stdlib Require Import String Ascii List ZArith NArith Bool Lia Arith.
From Stdlib Require Import Permutation Sorted.
Import ListNotations.

Set Implicit Arguments.

(* ================================================================== *)
(** ** JavaScript strings *)

Module JsString.

Definition t := list N.

Definition unit_of_ascii (c : ascii) : N := N_of_ascii c.

(** The code units of an ASCII literal. *)
Definition lit (s : string) : t := map unit_of_ascii (list_ascii_of_string s).

Definition eqb (a b : t) : bool := if list_eq_dec N.eq_dec a b then true else false.

(** WhiteSpace and LineTerminator of ECMAScript, the code points that
    [String.prototype.trim] strips: TAB, LF, VT, FF, CR, SP, NBSP,
    U+1680, U+2000..U+200A, LS, PS, U+202F, U+205F, U+3000, BOM. *)
Definition is_space (c : N) : bool :=
  ((9 <=? c) && (c <=? 13) || (c =? 32) || (c =? 160) || (c =? 5760)
   || (8192 <=? c) && (c <=? 8202) || (c =? 8232) || (c =? 8233)
   || (c =? 8239) || (c =? 8287) || (c =? 12288) || (c =? 65279))%N.

Fixpoint trimStart (s : t) : t :=
  match s with
  | c :: r => if is_space c then trimStart r else s
  | [] => []
  end.

Definition trimEnd (s : t) : t := rev (trimStart (rev s)).

(** [String.prototype.trim]. *)
Definition trim (s : t) : t := trimEnd (trimStart s).

(** [!!s] on a string: only the empty string is falsy. *)
Definition truthy (s : t) : bool :=
  match s with [] => false | _ :: _ => true end.

End JsString.

Definition jsstring : Type := JsString.t.

(* ================================================================== *)
(** ** The identifier pattern [/^[0-9a-fA-F]{64}$/] *)

Module Regex.

(** A character class as a list of inclusive code-unit ranges. *)
Definition class := list (N * N).

Definition in_class (cls : class) (c : N) : bool :=
  existsb (fun r => (fst r <=? c) && (c <=? snd r))%N cls.

(** [[0-9a-fA-F]] *)
Definition hex_class : class := [(48, 57); (97, 102); (65, 70)]%N.

(** [cls{n}] at the head of [s]: the rest of the string after exactly
    [n] units of the class, or no match. *)
Fixpoint repeat_exact (cls : class) (n : nat) (s : jsstring) : option jsstring :=
  match n with
  | O => Some s
  | S n' =>
      match s with
      | c :: r => if in_class cls c then repeat_exact cls n' r else None
      | [] => None
      end
  end.

(** [/^cls{n}$/.test(s)]: the pattern is anchored at both ends (no [m]
    flag), so the repetition starts at the first unit and must leave
    nothing behind. *)
Definition test_anchored (cls : class) (n : nat) (s : jsstring) : bool :=
  match repeat_exact cls n s with
  | Some [] => true
  | _ => false
  end.

Definition is_txid (s : jsstring) : bool := test_anchored hex_class 64 s.

End Regex.

(* ================================================================== *)
(** ** Arrays *)

Module Array.

Section Ops.
Variables A B : Type.

(** [a[i]] for a number [i]: [undefined] outside [0 .. length-1]. *)
Definition get (a : list A) (i : Z) : option A :=
  if (i <? 0)%Z then None else nth_error a (Z.to_nat i).

Fixpoint mapi_from (f : A -> nat -> B) (k : nat) (a : list A) : list B :=
  match a with
  | [] => []
  | x :: r => f x k :: mapi_from f (S k) r
  end.

(** [a.map((x, index) => f x index)] *)
Definition mapi (f : A -> nat -> B) (a : list A) : list B := mapi_from f 0 a.
End Ops.

Section Sort.
Variable A : Type.
(** The comparator's key: the comparators of this program are all
    [(a, b) => key a - key b]. *)
Variable key : A -> Z.

Fixpoint insert (x : A) (l : list A) : list A :=
  match l with
  | [] => [x]
  | y :: r => if (key x - key y <=? 0)%Z then x :: y :: r else y :: insert x r
  end.

(** [a.sort((a, b) => key a - key b)]. [Array.prototype.sort] is a
    stable sort, and the comparator is a consistent total preorder on
    integers, so the outcome is the one stable arrangement by
    increasing key: every element goes in front of the later elements
    that do not compare below it. *)
Fixpoint sort (l : list A) : list A :=
  match l with
  | [] => []
  | x :: r => insert x (sort r)
  end.
End Sort.

End Array.

(* ================================================================== *)
(** ** Data model *)

(** The upstream (Esplora) transaction, type [BlockstreamTx] of the handler. *)
Record Vin := {
  vin_txid : jsstring;
  vin_vout : Z;
  is_coinbase : option bool
}.

Record Vout := {
  vout_value : Z;
  scriptpubkey_address : option jsstring;
  scriptpubkey_type : option jsstring
}.

Record UpstreamStatus := {
  confirmed : bool;
  block_height : option Z;
  block_hash : option jsstring;
  block_time : option Z
}.

(** [fee] is declared a [number], but the handler reads it with [??]:
    it may be missing or [null]. *)
Record BlockstreamTx := {
  tx_txid : jsstring;
  tx_fee : option Z;
  tx_version : Z;
  tx_locktime : Z;
  tx_size : Z;
  tx_weight : Z;
  tx_vin : list Vin;
  tx_vout : list Vout;
  tx_status : UpstreamStatus
}.

Record Outspend := { os_spent : bool }.

(** The response types of [types/bitcoin]. *)
Record EnrichedInput := {
  in_txid : jsstring;
  in_vout : Z;
  in_value : Z;
  in_address : option jsstring;
  in_scriptType : option jsstring;
  isCoinbase : bool
}.

Record EnrichedOutput := {
  out_txid : jsstring;
  out_vout : nat;
  out_value : Z;
  out_address : option jsstring;
  out_scriptType : option jsstring;
  spent : bool
}.

Record TxStatus := {
  st_confirmed : bool;
  blockHeight : option Z;
  blockHash : option jsstring;
  blockTime : option Z
}.

Record TxDetails := {
  version : Z;
  locktime : Z;
  size : Z;
  weight : Z;
  vinCount : nat;
  voutCount : nat
}.

Record TxExplainerResponse := {
  txid : jsstring;
  fee : Z;
  totalInput : Z;
  totalOutput : Z;
  inputs : list EnrichedInput;
  outputs : list EnrichedOutput;
  status : TxStatus;
  details : TxDetails;
  rawHex : jsstring;
  changeOutputIndex : option nat
}.

(** What the handler answers: [NextResponse.json(result)] or
    [NextResponse.json({ error }, { status })]. *)
Inductive Response :=
| Json (result : TxExplainerResponse)
| JsonError (http_status : Z) (error : string).

(* ================================================================== *)
(** ** Sets of strings *)

Module JsSet.

Definition elt : Type := option jsstring.

Definition elt_eqb (a b : elt) : bool :=
  match a, b with
  | Some x, Some y => JsString.eqb x y
  | None, None => true
  | _, _ => false
  end.

(** [s.has(x)] *)
Definition has (s : list elt) (x : elt) : bool := existsb (elt_eqb x) s.

Definition add (s : list elt) (x : elt) : list elt :=
  if has s x then s else s ++ [x].

(** [new Set(values)]: the distinct values, in the order of their
    first occurrence. *)
Definition of_list (values : list elt) : list elt := fold_left add values [].

End JsSet.

(** [!!a] and [a && ...] for [a : string | null]: [null] and the empty
    string are falsy. *)
Definition truthy (a : option jsstring) : bool :=
  match a with
  | Some s => JsString.truthy s
  | None => false
  end.

(* ================================================================== *)
(** ** The change heuristic *)

(** [satsFromOutputs]; every element of the array has its [value], so
    [o?.value ?? 0] is that value. *)
Definition satsFromOutputs (outs : list Vout) : Z :=
  fold_left (fun sum o => sum + vout_value o)%Z outs 0%Z.

(** The pairs [{ o, idx }] that [guessChangeOutputIndex] works on. *)
Record Candidate := { cand_o : EnrichedOutput; cand_idx : nat }.

Definition DUST_THRESHOLD : Z := 1000.

Definition cand_value (c : Candidate) : Z := out_value (cand_o c).

Definition inputAddresses (ins : list EnrichedInput) : list JsSet.elt :=
  JsSet.of_list (filter truthy (map in_address ins)).

Definition guessChangeOutputIndex
    (ins : list EnrichedInput) (outs : list EnrichedOutput) : option nat :=
  if length outs <? 2 then None
  else
    let addrs := inputAddresses ins in
    let all := Array.mapi (fun o idx => {| cand_o := o; cand_idx := idx |}) outs in
    let candidates :=
      filter (fun c => truthy (out_address (cand_o c))
                       && JsSet.has addrs (out_address (cand_o c))) all in
    let candidates := if length candidates =? 0 then all else candidates in
    let nonDust := filter (fun c => (DUST_THRESHOLD <? cand_value c)%Z) candidates in
    let base := if 0 <? length nonDust then nonDust else candidates in
    match Array.sort cand_value base with
    | c :: _ => Some (cand_idx c)
    | [] => None
    end.

(* ================================================================== *)
(** ** Upstream reads *)

(** The upstream service, as the handler sees it through [fetchJson] and
    [fetchText]: for a path, the decoded body, or [None] when the read
    throws (network error, a status that is not ok, a body that does not
    decode). *)
Record Upstream := {
  json_tx : jsstring -> option BlockstreamTx;
  text : jsstring -> option jsstring;
  json_outspends : jsstring -> option (list Outspend)
}.

Definition callLog := list jsstring.

(** An asynchronous computation: from the log of the requests made so
    far to its outcome ([None]: the promise rejects) and the log after. *)
Definition Fetch (A : Type) : Type := callLog -> option A * callLog.

Module Fetch.

Definition ret {A} (a : A) : Fetch A := fun log => (Some a, log).

(** [await m] followed by [k]: nothing of [k] runs once [m] rejects. *)
Definition bind {A B} (m : Fetch A) (k : A -> Fetch B) : Fetch B :=
  fun log =>
    match m log with
    | (Some a, log') => k a log'
    | (None, log') => (None, log')
    end.

(** One upstream request: it is sent, and logged, whatever its outcome. *)
Definition request {A} (answer : jsstring -> option A) (path : jsstring) : Fetch A :=
  fun log => (answer path, log ++ [path]).

(** [Promise.all] of two promises: both are started before either is
    awaited; the join rejects when one of them does. *)
Definition both {A B} (p : Fetch A) (q : Fetch B) : Fetch (A * B) :=
  fun log =>
    let (a, log1) := p log in
    let (b, log2) := q log1 in
    (match a, b with Some x, Some y => Some (x, y) | _, _ => None end, log2).

(** [Promise.all] of an array of promises. *)
Fixpoint all {A} (ps : list (Fetch A)) : Fetch (list A) :=
  match ps with
  | [] => ret []
  | p :: r =>
      fun log =>
        let (a, log1) := p log in
        let (l, log2) := all r log1 in
        (match a, l with Some x, Some xs => Some (x :: xs) | _, _ => None end, log2)
  end.

End Fetch.

Notation "x <- m ;; k" := (Fetch.bind m (fun x => k))
  (at level 61, m at next level, right associativity).
Notation "' pat <- m ;; k" := (Fetch.bind m (fun x => match x with pat => k end))
  (at level 61, pat pattern, m at next level, right associativity).

Section Handler.

Variable up : Upstream.

Definition tx_path (id : jsstring) : jsstring := JsString.lit "/tx/" ++ id.
Definition hex_path (id : jsstring) : jsstring := tx_path id ++ JsString.lit "/hex".
Definition outspends_path (id : jsstring) : jsstring :=
  tx_path id ++ JsString.lit "/outspends".

(** [!!vin.is_coinbase] *)
Definition coinbase (v : Vin) : bool :=
  match is_coinbase v with Some b => b | None => false end.

(** One element of the array handed to the second [Promise.all]:
    [null] for a coinbase input, the read of the ancestor otherwise. *)
Definition fetchPrev (v : Vin) : Fetch (option BlockstreamTx) :=
  if coinbase v then Fetch.ret None
  else fun log =>
    let (r, log') := Fetch.request (json_tx up) (tx_path (vin_txid v)) log in
    (option_map Some r, log').

(** The callback of [tx.vin.map] that builds [enrichedInputs]. The
    [typeof vin.vout === "number"] test holds of every [vin_vout]. *)
Definition enrichInput (prevTxs : list (option BlockstreamTx))
    (v : Vin) (index : nat) : EnrichedInput :=
  let prevOut :=
    match nth_error prevTxs index with
    | Some (Some prevTx) => Array.get (tx_vout prevTx) (vin_vout v)
    | _ => None
    end in
  {| in_txid := vin_txid v;
     in_vout := vin_vout v;
     in_value := match prevOut with Some p => vout_value p | None => 0%Z end;
     in_address := match prevOut with Some p => scriptpubkey_address p | None => None end;
     in_scriptType := match prevOut with Some p => scriptpubkey_type p | None => None end;
     isCoinbase := coinbase v |}.

(** The callback of [tx.vout.map] that builds [enrichedOutputs]. *)
Definition enrichOutput (id : jsstring) (outspends : list Outspend)
    (o : Vout) (index : nat) : EnrichedOutput :=
  {| out_txid := id;
     out_vout := index;
     out_value := vout_value o;
     out_address := scriptpubkey_address o;
     out_scriptType := scriptpubkey_type o;
     spent := match nth_error outspends index with
              | Some s => os_spent s
              | None => false
              end |}.

(** The synchronous tail of the [try] block. *)
Definition assemble (id : jsstring) (tx : BlockstreamTx) (hex : jsstring)
    (outspends : list Outspend) (prevTxs : list (option BlockstreamTx))
    : TxExplainerResponse :=
  let enrichedInputs := Array.mapi (enrichInput prevTxs) (tx_vin tx) in
  let enrichedOutputs := Array.mapi (enrichOutput id outspends) (tx_vout tx) in
  let totalIn := fold_left (fun sum i => sum + in_value i)%Z enrichedInputs 0%Z in
  let totalOut := satsFromOutputs (tx_vout tx) in
  let fee' := match tx_fee tx with
              | Some f => f
              | None => Z.max (totalIn - totalOut) 0
              end in
  {| txid := tx_txid tx;
     fee := fee';
     totalInput := totalIn;
     totalOutput := totalOut;
     inputs := enrichedInputs;
     outputs := enrichedOutputs;
     status := {| st_confirmed := confirmed (tx_status tx);
                  blockHeight := block_height (tx_status tx);
                  blockHash := block_hash (tx_status tx);
                  blockTime := block_time (tx_status tx) |};
     details := {| version := tx_version tx;
                   locktime := tx_locktime tx;
                   size := tx_size tx;
                   weight := tx_weight tx;
                   vinCount := length (tx_vin tx);
                   voutCount := length (tx_vout tx) |};
     rawHex := hex;
     changeOutputIndex := guessChangeOutputIndex enrichedInputs enrichedOutputs |}.

(** The [try] block. *)
Definition explain (id : jsstring) : Fetch TxExplainerResponse :=
  '(tx, (hex, outspends)) <-
      Fetch.both (Fetch.request (json_tx up) (tx_path id))
        (Fetch.both (Fetch.request (text up) (hex_path id))
                    (Fetch.request (json_outspends up) (outspends_path id))) ;;
  prevTxs <- Fetch.all (map fetchPrev (tx_vin tx)) ;;
  Fetch.ret (assemble id tx hex outspends prevTxs).

Definition INVALID_TXID : string :=
  "Please provide a valid 64-character hex transaction id.".
Definition UPSTREAM_FAILED : string :=
  "Failed to fetch or decode transaction from Blockstream testnet API.".

(** The route handler; [rawTxid] is the route parameter, [None] when
    it is undefined. *)
Definition GET (rawTxid : option jsstring) : Response * callLog :=
  let id := JsString.trim (match rawTxid with Some s => s | None => [] end) in
  if negb (Regex.is_txid id) then (JsonError 400 INVALID_TXID, [])
  else
    match explain id [] with
    | (Some result, log) => (Json result, log)
    | (None, log) => (JsonError 502 UPSTREAM_FAILED, log)
    end.

End Handler.

(* ================================================================== *)
(** ** Vocabulary of the properties *)

(** *** Selecting by smallest key *)

Section Selecting.
Variable A : Type.
Variable key : A -> Z.
Variable pos : A -> nat.

(** The element a scan keeps when it replaces its current choice only
    by a strictly smaller one: the first of the minimal elements. *)
Fixpoint first_min (l : list A) : option A :=
  match l with
  | [] => None
  | x :: r =>
      match first_min r with
      | Some m => if (key x <=? key m)%Z then Some x else Some m
      | None => Some x
      end
  end.

Definition key_le (a b : A) : Prop := (key a <= key b)%Z.

Definition pos_lt (a b : A) : Prop := pos a < pos b.

End Selecting.

(** *** The change heuristic, stated on the outputs *)

Section ChangeSpec.
Variable ins : list EnrichedInput.
Variable outs : list EnrichedOutput.

(** The intermediate arrays of [guessChangeOutputIndex]. *)
Definition allCandidates : list Candidate :=
  Array.mapi (fun o idx => {| cand_o := o; cand_idx := idx |}) outs.

Definition toInputAddress (c : Candidate) : bool :=
  truthy (out_address (cand_o c))
  && JsSet.has (inputAddresses ins) (out_address (cand_o c)).

Definition candidates : list Candidate :=
  let m := filter toInputAddress allCandidates in
  if length m =? 0 then allCandidates else m.

Definition aboveDust (c : Candidate) : bool := (DUST_THRESHOLD <? cand_value c)%Z.

Definition base : list Candidate :=
  let nonDust := filter aboveDust candidates in
  if 0 <? length nonDust then nonDust else candidates.

Definition IsOutput (i : nat) (o : EnrichedOutput) : Prop := nth_error outs i = Some o.

(** [a] is the address of one of the resolved inputs. *)
Definition InputAddress (a : jsstring) : Prop :=
  exists inp, In inp ins /\ in_address inp = Some a.

(** The address of the output is present and appears among the input
    addresses. *)
Definition ToSender_stated (i : nat) (o : EnrichedOutput) : Prop :=
  IsOutput i o /\ exists a, out_address o = Some a /\ InputAddress a.

(** The same, for an address that is moreover not the empty string. *)
Definition ToSender (i : nat) (o : EnrichedOutput) : Prop :=
  IsOutput i o /\ exists a, out_address o = Some a /\ a <> [] /\ InputAddress a.

Section Selection.
(** How the outputs that go back to the sender are recognised. *)
Variable Match : nat -> EnrichedOutput -> Prop.

(** The matching outputs, or every output when none matches. *)
Definition IsCandidate (i : nat) (o : EnrichedOutput) : Prop :=
  IsOutput i o /\ ((exists j p, Match j p) -> Match i o).

(** The candidates above the dust threshold, or every candidate when
    none is above it. *)
Definition IsKept (i : nat) (o : EnrichedOutput) : Prop :=
  IsCandidate i o /\
  ((exists j p, IsCandidate j p /\ (1000 < out_value p)%Z) -> (1000 < out_value o)%Z).

(** [i] is the kept output of smallest value, the first one of them in
    output order when several have that value. *)
Definition IsChoice (i : nat) : Prop :=
  exists o, IsKept i o /\
    forall j p, IsKept j p ->
      (out_value o <= out_value p)%Z /\ (out_value p = out_value o -> i <= j).

End Selection.

End ChangeSpec.

(** *** Identifiers *)

(** A hexadecimal digit, of either case. *)
Definition HexDigit (c : N) : Prop :=
  (48 <= c <= 57 \/ 97 <= c <= 102 \/ 65 <= c <= 70)%N.

(** Exactly 64 hexadecimal characters. *)
Definition Hex64 (s : jsstring) : Prop := length s = 64 /\ Forall HexDigit s.

Definition Blank (s : jsstring) : Prop := Forall (fun c => JsString.is_space c = true) s.

(** The identifier the handler works with. *)
Definition cleaned (rawTxid : option jsstring) : jsstring :=
  JsString.trim (match rawTxid with Some s => s | None => [] end).

(** *** Reads *)

(** The join of an array of outcomes. *)
Fixpoint all_some {A} (l : list (option A)) : option (list A) :=
  match l with
  | [] => Some []
  | a :: r =>
      match a, all_some r with
      | Some x, Some xs => Some (x :: xs)
      | _, _ => None
      end
  end.

Section Reads.
Variable up : Upstream.

(** The outcome of the element of the second [Promise.all] for one input. *)
Definition prevOf (v : Vin) : option (option BlockstreamTx) :=
  if coinbase v then Some None
  else option_map Some (json_tx up (tx_path (vin_txid v))).

(** The paths of the ancestor reads for an array of inputs. *)
Definition prevPaths (vins : list Vin) : list jsstring :=
  map (fun v => tx_path (vin_txid v)) (filter (fun v => negb (coinbase v)) vins).

Definition mainPaths (id : jsstring) : list jsstring :=
  [tx_path id; hex_path id; outspends_path id].

End Reads.

(** No output of the transaction has a negative value. *)
Definition NoNegativeOutput (tx : BlockstreamTx) : Prop :=
  Forall (fun o => (0 <= vout_value o)%Z) (tx_vout tx).

(* ================================================================== *)
(** ** Sample data *)

(** An input and two outputs; the first output carries the input's
    address, and that address is the empty string. *)
Definition blank_input : EnrichedInput :=
  {| in_txid := JsString.lit "aa"; in_vout := 0; in_value := 8000;
     in_address := Some []; in_scriptType := None; isCoinbase := false |}.

Definition blank_outputs : list EnrichedOutput :=
  [ {| out_txid := JsString.lit "bb"; out_vout := 0; out_value := 5000;
       out_address := Some []; out_scriptType := None; spent := false |};
    {| out_txid := JsString.lit "bb"; out_vout := 1; out_value := 2000;
       out_address := Some (JsString.lit "x"); out_scriptType := None;
       spent := false |} ].

(** The scenario of the specification: inputs of 50000 and 30000, an
    output of 70000 to the address of the first input and one of 9000
    to another address. *)
Definition scenario_inputs : list EnrichedInput :=
  [ {| in_txid := JsString.lit "p1"; in_vout := 0; in_value := 50000;
       in_address := Some (JsString.lit "A"); in_scriptType := None;
       isCoinbase := false |};
    {| in_txid := JsString.lit "p2"; in_vout := 1; in_value := 30000;
       in_address := Some (JsString.lit "C"); in_scriptType := None;
       isCoinbase := false |} ].

Definition scenario_outputs : list EnrichedOutput :=
  [ {| out_txid := JsString.lit "t"; out_vout := 0; out_value := 70000;
       out_address := Some (JsString.lit "A"); out_scriptType := None;
       spent := false |};
    {| out_txid := JsString.lit "t"; out_vout := 1; out_value := 9000;
       out_address := Some (JsString.lit "B"); out_scriptType := None;
       spent := true |} ].

(** An upstream given by the table of what it serves. *)
Definition serve {A} (table : list (jsstring * A)) (path : jsstring) : option A :=
  option_map snd (find (fun e => JsString.eqb (fst e) path) table).

Definition sample_id : jsstring := JsString.lit "4a5e1e4baab89f3a32518a88c31bc87f618f76673e2cc77ab2127b7afdeda33b".
Definition parent1_id : jsstring := JsString.lit "0e3e2357e806b6cdb1f70b54c3a3a17b6714ee1f0e68bebb44a74b1efd512098".
Definition parent2_id : jsstring := JsString.lit "9b0fc92260312ce44e74ef369f5c66bbb85848f2eddd5a7a1cde251e54ccfdd5".

Definition mkTx (id : jsstring) (declared : option Z)
    (vins : list Vin) (vouts : list Vout) : BlockstreamTx :=
  {| tx_txid := id; tx_fee := declared; tx_version := 2; tx_locktime := 0;
     tx_size := 222; tx_weight := 561; tx_vin := vins; tx_vout := vouts;
     tx_status := {| confirmed := true; block_height := Some 170%Z;
                     block_hash := None; block_time := None |} |}.

Definition pay (v : Z) (a : string) : Vout :=
  {| vout_value := v; scriptpubkey_address := Some (JsString.lit a);
     scriptpubkey_type := Some (JsString.lit "v0_p2wpkh") |}.

Definition spend (id : jsstring) (n : Z) : Vin :=
  {| vin_txid := id; vin_vout := n; is_coinbase := Some false |}.

Definition parent1 : BlockstreamTx :=
  mkTx parent1_id (Some 150%Z) [] [pay 50000 "A"].
Definition parent2 : BlockstreamTx :=
  mkTx parent2_id (Some 150%Z) [] [pay 1200 "D"; pay 30000 "C"].

(** The transaction of the scenario, with a declared fee or none. *)
Definition scenario_tx (declared : option Z) : BlockstreamTx :=
  mkTx sample_id declared [spend parent1_id 0; spend parent2_id 1]
       [pay 70000 "A"; pay 9000 "B"].

Definition serve_main (tx : BlockstreamTx) (ancestors : list (jsstring * BlockstreamTx))
    : Upstream :=
  {| json_tx := serve ((tx_path sample_id, tx) :: ancestors);
     text := serve [(hex_path sample_id, JsString.lit "0200")];
     json_outspends :=
       serve [(outspends_path sample_id,
               [ {| os_spent := false |}; {| os_spent := true |} ])] |}.

Definition scenario_up (declared : option Z) : Upstream :=
  serve_main (scenario_tx declared)
    [(tx_path parent1_id, parent1); (tx_path parent2_id, parent2)].

(** The same, but the second ancestor cannot be read. *)
Definition orphan_up : Upstream :=
  serve_main (scenario_tx None) [(tx_path parent1_id, parent1)].

(** Nothing can be read. *)
Definition offline : Upstream :=
  {| json_tx := fun _ => None; text := fun _ => None;
     json_outspends := fun _ => None |}.

(** A block reward: one coinbase input. *)
Definition reward_vin : Vin :=
  {| vin_txid := repeat 48%N 64; vin_vout := 4294967295;
     is_coinbase := Some true |}.
Definition reward_up : Upstream :=
  serve_main (mkTx sample_id (Some 0%Z) [reward_vin] [pay 5000000000 "M"]) [].

(** An input that names output 7 of an ancestor with a single output. *)
Definition dangling_up : Upstream :=
  serve_main (mkTx sample_id None [spend parent1_id 7] [pay 100 "B"])
    [(tx_path parent1_id, parent1)].

(** What the handler builds for the scenario. *)
Definition scenario_result (declared : option Z) : TxExplainerResponse :=
  assemble sample_id (scenario_tx declared) (JsString.lit "0200")
    [ {| os_spent := false |}; {| os_spent := true |} ]
    [Some parent1; Some parent2].

(* ================================================================== *)
(** ** The samples route *)

Module Samples.

(** An element of the upstream's list of recent transactions. *)
Record RecentTx := { recent_txid : jsstring }.

(** What the route answers: [NextResponse.json({ txids })] or
    [NextResponse.json({ error }, { status })]. *)
Inductive Response :=
| Json (txids : list jsstring)
| JsonError (http_status : Z) (error : string).

Definition recent_path : jsstring := JsString.lit "/mempool/recent".

Definition SAMPLES_FAILED : string :=
  "Failed to fetch sample testnet transactions.".

(** The route handler. [recent] is what the upstream answers to a read
    of a path as a list of recent transactions, [None] when the read
    throws; [data.slice(0, 5)] is [firstn 5 data]. *)
Definition GET (recent : jsstring -> option (list RecentTx)) : Response * callLog :=
  match Fetch.request recent recent_path [] with
  | (Some data, log) => (Json (map recent_txid (firstn 5 data)), log)
  | (None, log) => (JsonError 502 SAMPLES_FAILED, log)
  end.

End Samples.

(* ================================================================== *)
(** ** The page: script labels and step navigation *)

Module Page.

(** [formatScriptType] *)
Definition formatScriptType (scriptType : option jsstring) : jsstring :=
  match scriptType with
  | None => JsString.lit "Unknown script"
  | Some s =>
      if negb (JsString.truthy s) then JsString.lit "Unknown script"
      else if JsString.eqb s (JsString.lit "p2pkh") then JsString.lit "P2PKH (Legacy)"
      else if JsString.eqb s (JsString.lit "p2wpkh") then JsString.lit "P2WPKH (Native SegWit)"
      else if JsString.eqb s (JsString.lit "p2sh") then JsString.lit "P2SH (Script Hash)"
      else if JsString.eqb s (JsString.lit "v0_p2wsh") then JsString.lit "P2WSH (SegWit script)"
      else if JsString.eqb s (JsString.lit "v1_p2tr") then JsString.lit "P2TR (Taproot)"
      else s
  end.

(** The tags that [formatScriptType] knows. *)
Definition known_tags : list jsstring :=
  map JsString.lit ["p2pkh"; "p2wpkh"; "p2sh"; "v0_p2wsh"; "v1_p2tr"]%string.

(** [x || d] on numbers; the operands here are integers, so [x] is
    falsy only when it is 0. *)
Definition or_else (x d : Z) : Z := if (x =? 0)%Z then d else x.

(** The step that [goPrev] and [goNext] of [StepControls] hand to
    [setStep]. *)
Definition goPrev (step : Z) : Z := or_else (Z.max 1 (step - 1)) 1.
Definition goNext (step : Z) : Z := or_else (Z.min 5 (step + 1)) 5.

End Page.

(* ================================================================== *)
(** ** More vocabulary *)

(** The sum of a list of amounts. *)
Definition Zsum (l : list Z) : Z := fold_right Z.add 0%Z l.

(* ================================================================== *)
(** ** More sample data *)

(** Two outputs, the second one below the dust threshold. *)
Definition dust_outputs : list EnrichedOutput :=
  [ {| out_txid := JsString.lit "t"; out_vout := 0; out_value := 70000;
       out_address := Some (JsString.lit "B"); out_scriptType := None;
       spent := false |};
    {| out_txid := JsString.lit "t"; out_vout := 1; out_value := 300;
       out_address := Some (JsString.lit "C"); out_scriptType := None;
       spent := false |} ].

(** An upstream that lists seven recent transactions. *)
Definition recent_seven (path : jsstring) : option (list Samples.RecentTx) :=
  if JsString.eqb path Samples.recent_path
  then Some (map (fun c => {| Samples.recent_txid := repeat c 64 |})
                 [48; 49; 50; 51; 52; 53; 54]%N)
  else None.

(* ================================================================== *)
(** ** Facts about strings, arrays and sorting *)

Lemma JsString_eqb_eq a b : JsString.eqb a b = true <-> a = b.
Proof.
  unfold JsString.eqb. destruct (list_eq_dec N.eq_dec a b); split; congruence.
Qed.

Section ArrayFacts.
Variables A B : Type.
Variable f : A -> nat -> B.

Lemma mapi_from_nth (a : list A) : forall k i,
  nth_error (Array.mapi_from f k a) i = option_map (fun x => f x (k + i)) (nth_error a i).
Proof.
  induction a as [|x r IH]; intros k i.
  - destruct i; reflexivity.
  - destruct i; simpl.
    + now rewrite Nat.add_0_r.
    + rewrite IH. simpl. now rewrite Nat.add_succ_r.
Qed.

Lemma mapi_nth (a : list A) i :
  nth_error (Array.mapi f a) i = option_map (fun x => f x i) (nth_error a i).
Proof. unfold Array.mapi. now rewrite mapi_from_nth. Qed.

Lemma mapi_from_length (a : list A) : forall k,
  length (Array.mapi_from f k a) = length a.
Proof. induction a; intros; simpl; auto. Qed.

Lemma mapi_from_In (a : list A) : forall k y,
  In y (Array.mapi_from f k a) <->
  exists i x, nth_error a i = Some x /\ y = f x (k + i).
Proof.
  induction a as [|x r IH]; intros k y; simpl.
  - split; [tauto|]. intros (i & z & H & _). destruct i; discriminate.
  - rewrite IH. split.
    + intros [E | (i & z & H & E)].
      * exists 0, x. rewrite Nat.add_0_r. auto.
      * exists (S i), z. rewrite Nat.add_succ_r. auto.
    + intros (i & z & H & E). destruct i; simpl in H.
      * left. injection H as <-. now rewrite Nat.add_0_r in E.
      * right. exists i, z. rewrite Nat.add_succ_r in E. auto.
Qed.
End ArrayFacts.

Section SortFacts.
Variable A : Type.
Variable key : A -> Z.

Lemma insert_perm x l : Permutation (x :: l) (Array.insert key x l).
Proof.
  induction l as [|y r IH]; simpl; auto.
  destruct (key x - key y <=? 0)%Z; auto.
  eapply perm_trans; [apply perm_swap|]. now constructor.
Qed.

Lemma sort_perm l : Permutation l (Array.sort key l).
Proof.
  induction l as [|x r IH]; simpl; auto.
  eapply perm_trans; [|apply insert_perm]. now constructor.
Qed.

Lemma insert_sorted x l :
  StronglySorted (key_le key) l -> StronglySorted (key_le key) (Array.insert key x l).
Proof.
  induction 1 as [|y r Hs IH Hall]; simpl.
  - repeat constructor.
  - destruct (Z.leb_spec (key x - key y) 0).
    + constructor; [now constructor|].
      constructor; [unfold key_le; lia|].
      eapply Forall_impl; [|exact Hall]. unfold key_le. intros; lia.
    + constructor; auto.
      eapply Permutation_Forall; [apply insert_perm|].
      constructor; auto. unfold key_le; lia.
Qed.

Lemma sort_sorted l : StronglySorted (key_le key) (Array.sort key l).
Proof.
  induction l; simpl; [constructor | now apply insert_sorted].
Qed.

Lemma insert_head x l :
  hd_error (Array.insert key x l) =
  match hd_error l with
  | Some y => if (key x <=? key y)%Z then Some x else Some y
  | None => Some x
  end.
Proof.
  destruct l as [|y r]; simpl; auto.
  destruct (Z.leb_spec (key x - key y) 0), (Z.leb_spec (key x) (key y));
    simpl; auto; lia.
Qed.

(** Sorting puts the first of the minimal elements in front. *)
Lemma sort_head l : hd_error (Array.sort key l) = first_min key l.
Proof.
  induction l as [|x r IH]; simpl; auto.
  now rewrite insert_head, IH.
Qed.

Lemma first_min_nonempty l : l <> [] -> first_min key l <> None.
Proof.
  destruct l as [|x r]; [congruence|]. intros _. simpl.
  destruct (first_min key r); [destruct (_ <=? _)%Z|]; discriminate.
Qed.

Variable pos : A -> nat.

Lemma first_min_spec l m :
  StronglySorted (pos_lt pos) l -> first_min key l = Some m ->
  In m l /\
  forall c, In c l ->
    (key m <= key c)%Z /\ (key c = key m -> pos m <= pos c).
Proof.
  induction 1 as [|x r Hs IH Hall] in m |- *; simpl; [discriminate|].
  rewrite Forall_forall in Hall.
  destruct (first_min key r) as [m'|] eqn:E.
  - destruct (IH m' eq_refl) as [Hin Hmin].
    destruct (Z.leb_spec (key x) (key m')); intros [= <-].
    + split; auto. intros c [<- | Hc]; [split; lia|].
      destruct (Hmin c Hc). specialize (Hall c Hc). unfold pos_lt in Hall.
      split; lia.
    + split; auto. intros c [<- | Hc]; [split; lia|]. auto.
  - intros [= <-]. split; auto.
    destruct r as [|y r']; [|exfalso; revert E; now apply first_min_nonempty].
    intros c [<- | []]. split; lia.
Qed.

Lemma filter_sorted (R : A -> A -> Prop) (p : A -> bool) l :
  StronglySorted R l -> StronglySorted R (filter p l).
Proof.
  induction 1 as [|x r Hs IH Hall]; simpl; [constructor|].
  destruct (p x); auto. constructor; auto.
  rewrite Forall_forall in *. intros y Hy. apply filter_In in Hy. now apply Hall.
Qed.
End SortFacts.

(* ================================================================== *)
(** ** Facts about sets of strings *)

Lemma elt_eqb_eq a b : JsSet.elt_eqb a b = true <-> a = b.
Proof.
  destruct a, b; simpl; try (split; congruence).
  rewrite JsString_eqb_eq. split; congruence.
Qed.

Lemma has_In s x : JsSet.has s x = true <-> In x s.
Proof.
  unfold JsSet.has. rewrite existsb_exists. split.
  - intros (y & Hy & E). apply elt_eqb_eq in E. now subst.
  - intros H. exists x. split; auto. now apply elt_eqb_eq.
Qed.

Lemma add_In s y x : In x (JsSet.add s y) <-> In x s \/ x = y.
Proof.
  unfold JsSet.add. destruct (JsSet.has s y) eqn:E.
  - apply has_In in E. split; auto. intros [H | ->]; auto.
  - rewrite in_app_iff. simpl. split; intros [H | H]; auto.
    + destruct H as [<- | []]; auto.
Qed.

Lemma of_list_In l x : In x (JsSet.of_list l) <-> In x l.
Proof.
  unfold JsSet.of_list.
  assert (G : forall s, In x (fold_left JsSet.add l s) <-> In x s \/ In x l).
  { induction l as [|y r IH]; intros s; simpl; [tauto|].
    rewrite IH, add_In. intuition auto. }
  rewrite G. simpl. tauto.
Qed.

Lemma truthy_Some a : truthy (Some a) = true <-> a <> [].
Proof. destruct a; simpl; split; congruence. Qed.

(* ================================================================== *)
(** ** The change heuristic: what it selects *)

Section ChangeFacts.

Variable ins : list EnrichedInput.
Variable outs : list EnrichedOutput.

Lemma guess_eq :
  guessChangeOutputIndex ins outs =
  if length outs <? 2 then None
  else option_map cand_idx (first_min cand_value (base ins outs)).
Proof.
  unfold guessChangeOutputIndex. destruct (length outs <? 2); auto.
  rewrite <- sort_head. fold (allCandidates outs).
  change (filter _ (allCandidates outs))
    with (filter (toInputAddress ins) (allCandidates outs)).
  fold (candidates ins outs).
  change (filter _ (candidates ins outs))
    with (filter aboveDust (candidates ins outs)).
  fold (base ins outs). now destruct (Array.sort cand_value (base ins outs)).
Qed.

Lemma IsChoice_unique Match i j :
  IsChoice outs Match i -> IsChoice outs Match j -> i = j.
Proof.
  intros (o & Ko & Ho) (p & Kp & Hp).
  destruct (Ho _ _ Kp) as [L1 T1], (Hp _ _ Ko) as [L2 T2].
  assert (E : out_value o = out_value p) by lia.
  specialize (T1 (eq_sym E)). specialize (T2 E). lia.
Qed.

Lemma allCandidates_In c :
  In c (allCandidates outs) <-> IsOutput outs (cand_idx c) (cand_o c).
Proof.
  unfold allCandidates, Array.mapi, IsOutput. rewrite mapi_from_In. split.
  - intros (i & x & H & ->). exact H.
  - intros H. exists (cand_idx c), (cand_o c). split; auto. now destruct c.
Qed.

Lemma mapi_from_sorted (l : list EnrichedOutput) : forall k,
  StronglySorted (pos_lt cand_idx)
    (Array.mapi_from (fun o idx => {| cand_o := o; cand_idx := idx |}) k l).
Proof.
  induction l as [|x r IH]; intros k; simpl; constructor; auto.
  rewrite Forall_forall. intros c Hc. apply mapi_from_In in Hc.
  destruct Hc as (i & y & _ & ->). unfold pos_lt. simpl. lia.
Qed.

Lemma allCandidates_sorted : StronglySorted (pos_lt cand_idx) (allCandidates outs).
Proof. apply mapi_from_sorted. Qed.

Lemma inputAddresses_In a :
  In (Some a) (inputAddresses ins) <-> a <> [] /\ InputAddress ins a.
Proof.
  unfold inputAddresses, InputAddress.
  rewrite of_list_In, filter_In, in_map_iff, truthy_Some.
  split; intros [H1 H2]; split; auto.
  - destruct H1 as (inp & E & Hin). eauto.
  - destruct H2 as (inp & Hin & E). eauto.
Qed.

Lemma toInputAddress_spec c :
  toInputAddress ins c = true <->
  exists a, out_address (cand_o c) = Some a /\ a <> [] /\ InputAddress ins a.
Proof.
  unfold toInputAddress. rewrite andb_true_iff, has_In.
  destruct (out_address (cand_o c)) as [a|]; simpl.
  - rewrite inputAddresses_In. split.
    + intros (_ & H1 & H2). eauto.
    + intros (b & [= <-] & H1 & H2). split; auto. now apply truthy_Some.
  - split; [intros [? _]; discriminate | intros (a & ? & _); discriminate].
Qed.

Lemma filter_empty_length {A} (p : A -> bool) (l : list A) :
  (length (filter p l) =? 0) = true <-> forall x, In x l -> p x = false.
Proof.
  rewrite Nat.eqb_eq, length_zero_iff_nil. split.
  - intros E x Hx. destruct (p x) eqn:Px; auto.
    assert (In x (filter p l)) by (apply filter_In; auto).
    rewrite E in H. destruct H.
  - intros H. induction l as [|x r IH]; simpl; auto.
    rewrite (H x) by (left; auto). apply IH. intros; apply H; right; auto.
Qed.

Lemma candidates_In c :
  In c (candidates ins outs) <->
  IsCandidate outs (ToSender ins outs) (cand_idx c) (cand_o c).
Proof.
  unfold candidates, IsCandidate, ToSender.
  destruct (length (filter (toInputAddress ins) (allCandidates outs)) =? 0) eqn:E.
  - rewrite filter_empty_length in E. rewrite allCandidates_In. split.
    + intros H. split; auto. intros (j & p & Hjp & Ha). exfalso.
      specialize (E {| cand_o := p; cand_idx := j |}).
      rewrite (proj2 (toInputAddress_spec _)) in E by exact Ha.
      discriminate E. now apply allCandidates_In.
    + tauto.
  - rewrite filter_In, allCandidates_In, toInputAddress_spec. split.
    + intros [H1 H2]. auto.
    + intros [H1 H2]. split; auto. apply H2.
      destruct (filter (toInputAddress ins) (allCandidates outs)) as [|d r] eqn:F;
        [discriminate|].
      assert (Hd : In d (filter (toInputAddress ins) (allCandidates outs)))
        by (rewrite F; left; auto).
      apply filter_In in Hd. destruct Hd as [Hd1 Hd2].
      exists (cand_idx d), (cand_o d). split.
      * now apply allCandidates_In.
      * now apply toInputAddress_spec.
Qed.

Lemma base_In c :
  In c (base ins outs) <->
  IsKept outs (ToSender ins outs) (cand_idx c) (cand_o c).
Proof.
  unfold base, IsKept.
  destruct (0 <? length (filter aboveDust (candidates ins outs))) eqn:E.
  - rewrite filter_In, candidates_In. unfold aboveDust, cand_value, DUST_THRESHOLD.
    rewrite Z.ltb_lt. split; [tauto|]. intros [H1 H2]. split; auto. apply H2.
    destruct (filter aboveDust (candidates ins outs)) as [|d r] eqn:F; [discriminate|].
    assert (Hd : In d (filter aboveDust (candidates ins outs)))
      by (rewrite F; left; auto).
    apply filter_In in Hd. destruct Hd as [Hd1 Hd2].
    exists (cand_idx d), (cand_o d). split; [now apply candidates_In|].
    now apply Z.ltb_lt in Hd2.
  - assert (E' : (length (filter aboveDust (candidates ins outs)) =? 0) = true).
    { apply Nat.ltb_ge in E. apply Nat.eqb_eq. lia. }
    rewrite filter_empty_length in E'. rewrite candidates_In.
    split; [|tauto]. intros H. split; auto. intros (j & p & Hjp & Hv). exfalso.
    specialize (E' {| cand_o := p; cand_idx := j |}).
    unfold aboveDust, cand_value, DUST_THRESHOLD in E'. simpl in E'.
    rewrite (proj2 (Z.ltb_lt _ _) Hv) in E'. discriminate E'.
    now apply candidates_In.
Qed.

Lemma candidates_sorted : StronglySorted (pos_lt cand_idx) (candidates ins outs).
Proof.
  unfold candidates. destruct (_ =? 0).
  - apply allCandidates_sorted.
  - apply filter_sorted, allCandidates_sorted.
Qed.

Lemma base_sorted : StronglySorted (pos_lt cand_idx) (base ins outs).
Proof.
  unfold base. destruct (0 <? _).
  - apply filter_sorted, candidates_sorted.
  - apply candidates_sorted.
Qed.

Lemma candidates_nonempty : outs <> [] -> candidates ins outs <> [].
Proof.
  intros H. unfold candidates.
  destruct (length (filter (toInputAddress ins) (allCandidates outs)) =? 0) eqn:E.
  - unfold allCandidates, Array.mapi. destruct outs; [congruence|]. discriminate.
  - destruct (filter (toInputAddress ins) (allCandidates outs)); [discriminate|discriminate].
Qed.

Lemma base_nonempty : outs <> [] -> base ins outs <> [].
Proof.
  intros H. unfold base.
  destruct (filter aboveDust (candidates ins outs)) eqn:E; simpl.
  - now apply candidates_nonempty.
  - discriminate.
Qed.

End ChangeFacts.

(* ================================================================== *)
(** ** Properties of the change heuristic *)

(** C5: for all resolved inputs and outputs, [guessChangeOutputIndex]
    returns [null] or an index [i] with [0 <= i < outputs.length]. *)
Theorem guessChangeOutputIndex_in_range ins outs :
  guessChangeOutputIndex ins outs = None \/
  exists i, guessChangeOutputIndex ins outs = Some i /\ 0 <= i < length outs.
Proof.
  rewrite guess_eq. destruct (length outs <? 2); auto.
  destruct (first_min cand_value (base ins outs)) as [m|] eqn:E; auto.
  right. exists (cand_idx m). split; auto. split; [lia|].
  destruct (first_min_spec cand_value (base_sorted ins outs) E) as [Hin _].
  apply base_In in Hin. destruct Hin as [[Ho _] _].
  apply nth_error_Some. unfold IsOutput in Ho. congruence.
Qed.

(** C6: with fewer than two outputs (one output in particular) the
    heuristic returns [null], whatever the inputs. *)
Theorem guessChangeOutputIndex_few_outputs ins outs :
  length outs < 2 -> guessChangeOutputIndex ins outs = None.
Proof.
  intros H. unfold guessChangeOutputIndex.
  now rewrite (proj2 (Nat.ltb_lt _ _) H).
Qed.

(** C7, as the code has it: with at least two outputs the heuristic
    returns the index of the first output of smallest value among the
    kept ones, where the kept outputs are the candidates above 1000 (all
    candidates when none is), and the candidates are the outputs whose
    address is present, is not the empty string and is the address of a
    resolved input (all outputs when there is none). *)
Theorem guessChangeOutputIndex_choice ins outs :
  2 <= length outs ->
  exists i, guessChangeOutputIndex ins outs = Some i /\
            IsChoice outs (ToSender ins outs) i.
Proof.
  intros H. rewrite guess_eq.
  rewrite (proj2 (Nat.ltb_ge _ _) H).
  assert (Hne : outs <> []) by (destruct outs; simpl in H; [lia | discriminate]).
  destruct (first_min cand_value (base ins outs)) as [m|] eqn:E.
  - exists (cand_idx m). split; auto.
    destruct (first_min_spec cand_value (base_sorted ins outs) E) as [Hin Hmin].
    exists (cand_o m). split; [now apply base_In|].
    intros j p K.
    apply (Hmin {| cand_o := p; cand_idx := j |}). now apply base_In.
  - exfalso. revert E. apply first_min_nonempty. now apply base_nonempty.
Qed.

Lemma blank_stated_match j p :
  ToSender_stated [blank_input] blank_outputs j p -> j = 0.
Proof.
  intros [Ho (a & Ha & inp & [<- | []] & Hi)]. simpl in Hi. injection Hi as <-.
  unfold IsOutput in Ho.
  destruct j as [|[|j]]; auto; simpl in Ho.
  - injection Ho as <-. discriminate Ha.
  - destruct j; discriminate Ho.
Qed.

(** C7, as stated, fails on the blank address: its one candidate by the
    stated rule is output 0, and the heuristic answers 1. *)
Lemma guessChangeOutputIndex_blank_address :
  2 <= length blank_outputs /\
  guessChangeOutputIndex [blank_input] blank_outputs = Some 1 /\
  ToSender_stated [blank_input] blank_outputs 0
    {| out_txid := JsString.lit "bb"; out_vout := 0; out_value := 5000;
       out_address := Some []; out_scriptType := None; spent := false |} /\
  ~ (exists i, guessChangeOutputIndex [blank_input] blank_outputs = Some i /\
               IsChoice blank_outputs (ToSender_stated [blank_input] blank_outputs) i).
Proof.
  assert (M0 : ToSender_stated [blank_input] blank_outputs 0
    {| out_txid := JsString.lit "bb"; out_vout := 0; out_value := 5000;
       out_address := Some []; out_scriptType := None; spent := false |}).
  { split; [reflexivity|]. exists []. split; [reflexivity|].
    exists blank_input. split; [now left | reflexivity]. }
  split; [simpl; lia|]. split; [reflexivity|]. split; [exact M0|].
  intros (i & E & o & [[_ Hc] _] & _).
  change (Some 1 = Some i) in E. injection E as <-.
  assert (H : ToSender_stated [blank_input] blank_outputs 1 o) by (apply Hc; eauto).
  apply blank_stated_match in H. discriminate H.
Qed.

Example scenario_change :
  guessChangeOutputIndex scenario_inputs scenario_outputs = Some 0.
Proof. reflexivity. Qed.

Example ties_take_the_first :
  guessChangeOutputIndex []
    (map (fun v => {| out_txid := []; out_vout := 0; out_value := v;
                      out_address := None; out_scriptType := None;
                      spent := false |}) [3000; 2000; 500; 2000]%Z) = Some 1.
Proof. reflexivity. Qed.

Lemma guessChangeOutputIndex_few_outputs_witness :
  length (firstn 1 scenario_outputs) < 2 /\
  guessChangeOutputIndex scenario_inputs (firstn 1 scenario_outputs) = None.
Proof.
  split; [simpl; lia|].
  apply (guessChangeOutputIndex_few_outputs scenario_inputs (firstn 1 scenario_outputs)).
  simpl; lia.
Defined.

Lemma guessChangeOutputIndex_choice_witness :
  2 <= length scenario_outputs /\
  exists i, guessChangeOutputIndex scenario_inputs scenario_outputs = Some i /\
            IsChoice scenario_outputs (ToSender scenario_inputs scenario_outputs) i.
Proof.
  split; [simpl; lia|].
  apply (guessChangeOutputIndex_choice scenario_inputs scenario_outputs).
  simpl; lia.
Defined.

(* ================================================================== *)
(** ** The identifier check *)

Lemma hex_class_spec c : Regex.in_class Regex.hex_class c = true <-> HexDigit c.
Proof.
  unfold Regex.in_class, Regex.hex_class, HexDigit. simpl.
  rewrite !orb_true_iff, !andb_true_iff, !N.leb_le. intuition discriminate.
Qed.

Lemma repeat_exact_spec cls n : forall s r,
  Regex.repeat_exact cls n s = Some r <->
  exists p, s = p ++ r /\ length p = n /\ Forall (fun c => Regex.in_class cls c = true) p.
Proof.
  induction n as [|n IH]; intros s r; simpl.
  - split.
    + intros [= ->]. exists []. auto.
    + intros (p & -> & L & _). destruct p; [reflexivity | discriminate].
  - destruct s as [|c s'].
    + split; [discriminate|]. intros (p & E & L & _).
      destruct p; [discriminate L | discriminate E].
    + destruct (Regex.in_class cls c) eqn:C.
      * rewrite IH. split.
        -- intros (p & -> & L & F). exists (c :: p). simpl. auto.
        -- intros (p & E & L & F). destruct p as [|d p]; [discriminate L|].
           injection E as <- ->. inversion F; subst. exists p. auto.
      * split; [discriminate|]. intros (p & E & L & F).
        destruct p as [|d p]; [discriminate L|]. injection E as <- ->.
        inversion F; subst. congruence.
Qed.

Lemma is_txid_spec s : Regex.is_txid s = true <-> Hex64 s.
Proof.
  unfold Regex.is_txid, Regex.test_anchored, Hex64.
  destruct (Regex.repeat_exact Regex.hex_class 64 s) as [r|] eqn:E.
  - apply repeat_exact_spec in E. destruct E as (p & -> & L & F).
    assert (F' : Forall HexDigit p)
      by (eapply Forall_impl; [|exact F]; intros c; apply hex_class_spec).
    destruct r as [|d r].
    + rewrite app_nil_r. tauto.
    + split; [discriminate|]. intros [L' _]. rewrite length_app in L'.
      simpl in L'. lia.
  - split; [discriminate|]. intros [L F]. exfalso.
    assert (X : Regex.repeat_exact Regex.hex_class 64 s = Some []).
    { apply repeat_exact_spec. exists s. rewrite app_nil_r. repeat split; auto.
      eapply Forall_impl; [|exact F]. intros c; apply hex_class_spec. }
    congruence.
Qed.

Lemma hex_not_space c : HexDigit c -> JsString.is_space c = false.
Proof.
  unfold HexDigit. intros H. destruct (JsString.is_space c) eqn:E; auto.
  exfalso. unfold JsString.is_space in E.
  rewrite !orb_true_iff, !andb_true_iff, !N.leb_le, !N.eqb_eq in E. lia.
Qed.

Lemma trimStart_blank ws s : Blank ws -> JsString.trimStart (ws ++ s) = JsString.trimStart s.
Proof.
  induction 1 as [|c r Hc _ IH]; simpl; auto. now rewrite Hc.
Qed.

Lemma trimStart_solid s :
  Forall (fun c => JsString.is_space c = false) s -> JsString.trimStart s = s.
Proof. destruct 1 as [|c r Hc _]; simpl; auto. now rewrite Hc. Qed.

(** Trimming removes blank padding around a string without blanks. *)
Lemma trim_padded ws1 s ws2 :
  Blank ws1 -> Blank ws2 ->
  Forall (fun c => JsString.is_space c = false) s ->
  JsString.trim (ws1 ++ s ++ ws2) = s.
Proof.
  intros B1 B2 F. unfold JsString.trim, JsString.trimEnd.
  rewrite trimStart_blank by assumption.
  destruct s as [|c r].
  - simpl. clear F B1. induction B2 as [|d ws Hd _ IH]; simpl; auto.
    rewrite Hd. exact IH.
  - assert (Hc : JsString.is_space c = false) by (now inversion F).
    simpl. rewrite Hc.
    change (c :: r ++ ws2) with ((c :: r) ++ ws2).
    rewrite rev_app_distr, trimStart_blank by (now apply Forall_rev).
    rewrite trimStart_solid by (now apply Forall_rev). apply rev_involutive.
Qed.

(* ================================================================== *)
(** ** The handler, step by step *)

Lemma all_some_Some {A} (l : list (option A)) l' :
  all_some l = Some l' <-> l = map Some l'.
Proof.
  revert l'. induction l as [|a r IH]; intros l'; simpl.
  - split; [intros [= <-]; reflexivity | destruct l'; [reflexivity | discriminate]].
  - destruct a as [x|].
    + destruct (all_some r) as [xs|].
      * split.
        -- intros [= <-]. simpl. f_equal. now apply IH.
        -- destruct l' as [|y l']; [discriminate|]. simpl. intros [= -> E].
           apply IH in E. congruence.
      * split; [discriminate|]. destruct l' as [|y l']; [discriminate|].
        simpl. intros [= _ E]. apply IH in E. discriminate E.
    + split; [discriminate|]. destruct l'; discriminate.
Qed.

Lemma all_some_None {A} (l : list (option A)) :
  In None l -> all_some l = None.
Proof.
  induction l as [|a r IH]; simpl; [tauto|].
  intros [-> | H]; auto. rewrite (IH H). now destruct a.
Qed.

Lemma all_some_total {A} (l : list (option A)) :
  (forall a, In a l -> a <> None) -> exists l', all_some l = Some l'.
Proof.
  induction l as [|a r IH]; simpl; intros H; [eauto|].
  destruct IH as [xs ->]; [intros; apply H; auto|].
  destruct a as [x|]; [eauto|]. exfalso. now apply (H None); auto.
Qed.

Section HandlerFacts.

Variable up : Upstream.

Lemma fetchPrev_run v log :
  fetchPrev up v log = (prevOf up v, log ++ prevPaths [v]).
Proof.
  unfold fetchPrev, prevOf, prevPaths. simpl.
  destruct (coinbase v); simpl; [unfold Fetch.ret; now rewrite app_nil_r|].
  unfold Fetch.bind, Fetch.request, Fetch.ret.
  destruct (json_tx up (tx_path (vin_txid v))); reflexivity.
Qed.

Lemma all_fetchPrev_run vins : forall log,
  Fetch.all (map (fetchPrev up) vins) log =
  (all_some (map (prevOf up) vins), log ++ prevPaths vins).
Proof.
  induction vins as [|v r IH]; intros log; simpl.
  - unfold prevPaths. simpl. now rewrite app_nil_r.
  - rewrite fetchPrev_run, IH.
    assert (E : (log ++ prevPaths [v]) ++ prevPaths r = log ++ prevPaths (v :: r)).
    { rewrite <- app_assoc. f_equal. unfold prevPaths. simpl.
      destruct (coinbase v); reflexivity. }
    rewrite E. destruct (prevOf up v); reflexivity.
Qed.

(** The [try] block, outcome and log. *)
Lemma explain_run id log :
  explain up id log =
  match json_tx up (tx_path id), text up (hex_path id),
        json_outspends up (outspends_path id) with
  | Some tx, Some hex, Some outspends =>
      (option_map (assemble id tx hex outspends) (all_some (map (prevOf up) (tx_vin tx))),
       log ++ mainPaths id ++ prevPaths (tx_vin tx))
  | _, _, _ => (None, log ++ mainPaths id)
  end.
Proof.
  unfold explain, Fetch.bind, Fetch.both, Fetch.request, Fetch.ret, mainPaths.
  rewrite <- !app_assoc. simpl.
  destruct (json_tx up (tx_path id)) as [tx|];
    destruct (text up (hex_path id)) as [hex|];
    destruct (json_outspends up (outspends_path id)) as [os|]; try reflexivity.
  rewrite all_fetchPrev_run. rewrite <- !app_assoc. simpl.
  destruct (all_some (map (prevOf up) (tx_vin tx))); reflexivity.
Qed.

Lemma GET_rejected raw :
  ~ Hex64 (cleaned raw) -> GET up raw = (JsonError 400 INVALID_TXID, []).
Proof.
  intros H. unfold GET. fold (cleaned raw).
  destruct (Regex.is_txid (cleaned raw)) eqn:E; [|reflexivity].
  apply is_txid_spec in E. contradiction.
Qed.

Lemma GET_accepted raw :
  Hex64 (cleaned raw) ->
  GET up raw =
  match explain up (cleaned raw) [] with
  | (Some result, log) => (Json result, log)
  | (None, log) => (JsonError 502 UPSTREAM_FAILED, log)
  end.
Proof.
  intros H. unfold GET. fold (cleaned raw).
  now rewrite (proj2 (is_txid_spec _) H).
Qed.

(** A successful answer, taken apart. *)
Lemma GET_Json raw r log :
  GET up raw = (Json r, log) ->
  Hex64 (cleaned raw) /\
  exists tx hex outspends prevTxs,
    json_tx up (tx_path (cleaned raw)) = Some tx /\
    text up (hex_path (cleaned raw)) = Some hex /\
    json_outspends up (outspends_path (cleaned raw)) = Some outspends /\
    map (prevOf up) (tx_vin tx) = map Some prevTxs /\
    r = assemble (cleaned raw) tx hex outspends prevTxs /\
    log = mainPaths (cleaned raw) ++ prevPaths (tx_vin tx).
Proof.
  intros H.
  destruct (Regex.is_txid (cleaned raw)) eqn:E.
  - apply is_txid_spec in E. split; auto.
    rewrite (GET_accepted _ E), explain_run in H.
    destruct (json_tx up _) as [tx|]; [|discriminate H].
    destruct (text up _) as [hex|]; [|discriminate H].
    destruct (json_outspends up _) as [os|]; [|discriminate H].
    destruct (all_some (map (prevOf up) (tx_vin tx))) as [prevTxs|] eqn:P;
      [|discriminate H].
    simpl in H. injection H as <- <-.
    apply all_some_Some in P. exists tx, hex, os, prevTxs. repeat split; auto.
  - unfold GET in H. fold (cleaned raw) in H. rewrite E in H. discriminate H.
Qed.

(** The resolved input at a position. *)
Lemma enrichedInputs_nth id tx hex os prevTxs i v prev :
  map (prevOf up) (tx_vin tx) = map Some prevTxs ->
  nth_error (tx_vin tx) i = Some v ->
  prevOf up v = Some prev ->
  nth_error (inputs (assemble id tx hex os prevTxs)) i =
  Some {| in_txid := vin_txid v;
          in_vout := vin_vout v;
          in_value := match prev with
                      | Some p => match Array.get (tx_vout p) (vin_vout v) with
                                  | Some o => vout_value o | None => 0%Z end
                      | None => 0%Z end;
          in_address := match prev with
                        | Some p => match Array.get (tx_vout p) (vin_vout v) with
                                    | Some o => scriptpubkey_address o | None => None end
                        | None => None end;
          in_scriptType := match prev with
                           | Some p => match Array.get (tx_vout p) (vin_vout v) with
                                       | Some o => scriptpubkey_type o | None => None end
                           | None => None end;
          isCoinbase := coinbase v |}.
Proof.
  intros M Hv Hp. simpl. rewrite mapi_nth, Hv. simpl. f_equal.
  assert (N : nth_error prevTxs i = Some prev).
  { assert (X : nth_error (map (prevOf up) (tx_vin tx)) i = Some (Some prev))
      by (rewrite nth_error_map, Hv; simpl; now rewrite Hp).
    rewrite M, nth_error_map in X.
    destruct (nth_error prevTxs i); simpl in X; congruence. }
  unfold enrichInput. rewrite N.
  destruct prev as [p|]; [|reflexivity].
  destruct (Array.get (tx_vout p) (vin_vout v)); reflexivity.
Qed.

Lemma get_out_of_range {A} (a : list A) (i : Z) :
  Array.get a i = None <-> (i < 0 \/ Z.of_nat (length a) <= i)%Z.
Proof.
  unfold Array.get. destruct (Z.ltb_spec i 0).
  - split; auto.
  - rewrite nth_error_None. lia.
Qed.

End HandlerFacts.

Lemma sample_id_hex : Hex64 sample_id.
Proof. apply is_txid_spec. reflexivity. Qed.

Example scenario_answer :
  exists r log, GET (scenario_up None) (Some sample_id) = (Json r, log) /\
    totalInput r = 80000%Z /\ totalOutput r = 79000%Z /\ fee r = 1000%Z /\
    changeOutputIndex r = Some 0 /\
    log = mainPaths sample_id ++ [tx_path parent1_id; tx_path parent2_id].
Proof. eexists. eexists. split; [reflexivity|]. repeat split. Qed.

(* ================================================================== *)
(** ** Properties of the handler *)

(** C1, as the code has it: for an identifier that passes validation,
    when the read of the ancestor of one input that is not coinbase
    fails, the request as a whole fails with status 502; no degraded
    input is produced. *)
Theorem ancestor_failure_is_502 up raw tx v :
  Hex64 (cleaned raw) ->
  json_tx up (tx_path (cleaned raw)) = Some tx ->
  In v (tx_vin tx) ->
  coinbase v = false ->
  json_tx up (tx_path (vin_txid v)) = None ->
  fst (GET up raw) = JsonError 502 UPSTREAM_FAILED.
Proof.
  intros Hid Htx Hv Hc Hf.
  rewrite (GET_accepted up _ Hid), explain_run, Htx.
  destruct (text up _); [|reflexivity].
  destruct (json_outspends up _); [|reflexivity].
  rewrite all_some_None; [reflexivity|].
  apply in_map_iff. exists v. split; auto.
  unfold prevOf. now rewrite Hc, Hf.
Qed.

Lemma ancestor_failure_is_502_witness :
  Hex64 (cleaned (Some sample_id)) /\
  In (spend parent2_id 1) (tx_vin (scenario_tx None)) /\
  fst (GET orphan_up (Some sample_id)) = JsonError 502 UPSTREAM_FAILED.
Proof.
  split; [exact sample_id_hex|]. split; [simpl; auto|].
  apply (@ancestor_failure_is_502 orphan_up (Some sample_id)
           (scenario_tx None) (spend parent2_id 1)).
  - exact sample_id_hex.
  - reflexivity.
  - simpl; auto.
  - reflexivity.
  - reflexivity.
Defined.

(** C1, as stated, fails: the identifier is valid, the transaction, its
    hex and its spend status are read, the first ancestor is read, the
    read of the second ancestor fails, and the answer is the 502 error,
    not a result with a degraded input. *)
Lemma ancestor_failure_not_contained :
  Hex64 sample_id /\
  json_tx orphan_up (tx_path sample_id) = Some (scenario_tx None) /\
  text orphan_up (hex_path sample_id) <> None /\
  json_outspends orphan_up (outspends_path sample_id) <> None /\
  nth_error (tx_vin (scenario_tx None)) 1 = Some (spend parent2_id 1) /\
  coinbase (spend parent2_id 1) = false /\
  json_tx orphan_up (tx_path parent2_id) = None /\
  GET orphan_up (Some sample_id) =
    (JsonError 502 UPSTREAM_FAILED,
     mainPaths sample_id ++ [tx_path parent1_id; tx_path parent2_id]) /\
  ~ (exists r, fst (GET orphan_up (Some sample_id)) = Json r).
Proof.
  split; [exact sample_id_hex|].
  repeat (split; [first [reflexivity | discriminate]|]).
  intros [r H]. discriminate H.
Qed.

(** C2, as the code has it: when the supplied identifier, trimmed (and
    taken as empty when absent), is not exactly 64 hexadecimal
    characters, the answer is the 400 error and no upstream call is
    made. *)
Theorem malformed_id_rejected up raw :
  ~ Hex64 (cleaned raw) ->
  GET up raw = (JsonError 400 INVALID_TXID, []).
Proof. apply GET_rejected. Qed.

Lemma malformed_id_rejected_witness :
  ~ Hex64 (cleaned (Some (JsString.lit "xyz"))) /\
  GET (scenario_up None) (Some (JsString.lit "xyz")) =
  (JsonError 400 INVALID_TXID, []).
Proof.
  assert (H : ~ Hex64 (cleaned (Some (JsString.lit "xyz"))))
    by (intros [L _]; discriminate L).
  split; [exact H|].
  exact (@malformed_id_rejected (scenario_up None) (Some (JsString.lit "xyz")) H).
Defined.

(** C2, as stated, fails: a string of 65 characters, a space and then
    64 hexadecimal digits, is not rejected; three upstream calls are
    made. *)
Lemma padded_id_not_rejected :
  ~ Hex64 (JsString.lit " " ++ sample_id) /\
  GET offline (Some (JsString.lit " " ++ sample_id)) =
    (JsonError 502 UPSTREAM_FAILED, mainPaths sample_id) /\
  GET offline (Some (JsString.lit " " ++ sample_id)) <>
    (JsonError 400 INVALID_TXID, []).
Proof.
  split; [intros [L _]; discriminate L|].
  split; [reflexivity | discriminate].
Qed.

(** C10: the identifier is trimmed before the check: 64 hexadecimal
    characters surrounded by whitespace are taken as those 64
    characters and the request proceeds to the upstream reads. *)
Theorem padded_id_accepted up ws1 id ws2 :
  Blank ws1 -> Blank ws2 -> Hex64 id ->
  cleaned (Some (ws1 ++ id ++ ws2)) = id /\
  GET up (Some (ws1 ++ id ++ ws2)) =
    match explain up id [] with
    | (Some result, log) => (Json result, log)
    | (None, log) => (JsonError 502 UPSTREAM_FAILED, log)
    end.
Proof.
  intros B1 B2 H.
  assert (E : cleaned (Some (ws1 ++ id ++ ws2)) = id).
  { unfold cleaned. apply trim_padded; auto.
    eapply Forall_impl; [|exact (proj2 H)]. apply hex_not_space. }
  split; auto. rewrite GET_accepted; rewrite E; auto.
Qed.

Lemma padded_id_accepted_witness :
  exists r log,
    GET (scenario_up None)
        (Some (JsString.lit "  " ++ sample_id ++ [9; 10; 160; 65279]%N)) = (Json r, log) /\
    txid r = sample_id.
Proof.
  destruct (@padded_id_accepted (scenario_up None) (JsString.lit "  ") sample_id
              [9; 10; 160; 65279]%N) as [_ E].
  - repeat constructor.
  - repeat constructor.
  - exact sample_id_hex.
  - rewrite E. eexists. eexists. split; reflexivity.
Defined.

Lemma scenario_GET declared :
  GET (scenario_up declared) (Some sample_id) =
  (Json (scenario_result declared),
   mainPaths sample_id ++ [tx_path parent1_id; tx_path parent2_id]).
Proof. reflexivity. Qed.

(** C3: in a successful answer the fee is the fee the upstream declares
    when it declares one, whatever the totals, and
    [max (totalInput - totalOutput) 0] when it declares none. *)
Theorem fee_policy up raw r log :
  GET up raw = (Json r, log) ->
  exists tx, json_tx up (tx_path (cleaned raw)) = Some tx /\
    match tx_fee tx with
    | Some f => fee r = f
    | None => fee r = Z.max (totalInput r - totalOutput r) 0
    end.
Proof.
  intros H. apply GET_Json in H.
  destruct H as (_ & tx & hex & os & prevTxs & Htx & _ & _ & _ & -> & _).
  exists tx. split; auto. simpl. destruct (tx_fee tx); reflexivity.
Qed.

Lemma fee_policy_witness :
  fee (scenario_result (Some 1234%Z)) = 1234%Z /\
  (totalInput (scenario_result (Some 1234%Z))
   - totalOutput (scenario_result (Some 1234%Z)) = 1000)%Z /\
  fee (scenario_result None) = 1000%Z.
Proof.
  destruct (@fee_policy (scenario_up (Some 1234%Z)) (Some sample_id) _ _
              (scenario_GET (Some 1234%Z))) as (tx & Htx & Hfee).
  destruct (@fee_policy (scenario_up None) (Some sample_id) _ _
              (scenario_GET None)) as (tx' & Htx' & Hfee').
  injection Htx as <-. injection Htx' as <-. simpl in Hfee, Hfee'.
  split; [exact Hfee|]. split; [reflexivity | exact Hfee'].
Defined.

Lemma sum_nonneg {A} (f : A -> Z) (l : list A) : forall acc,
  (0 <= acc)%Z -> Forall (fun x => (0 <= f x)%Z) l ->
  (0 <= fold_left (fun sum x => sum + f x) l acc)%Z.
Proof.
  induction l as [|x r IH]; intros acc Ha F; simpl; auto.
  inversion F; subst. apply IH; auto. lia.
Qed.

Lemma enrichInput_nonneg up tx prevTxs :
  (forall path t, json_tx up path = Some t -> NoNegativeOutput t) ->
  map (prevOf up) (tx_vin tx) = map Some prevTxs ->
  Forall (fun e => (0 <= in_value e)%Z)
    (Array.mapi (enrichInput prevTxs) (tx_vin tx)).
Proof.
  intros Hup M. apply Forall_forall. intros e He.
  apply mapi_from_In in He. destruct He as (i & v & Hv & ->). simpl.
  destruct (nth_error prevTxs i) as [[p|]|] eqn:N; simpl; try lia.
  destruct (Array.get (tx_vout p) (vin_vout v)) as [o|] eqn:G; [|lia].
  assert (X : nth_error (map (prevOf up) (tx_vin tx)) i = Some (Some (Some p)))
    by (rewrite M, nth_error_map, N; reflexivity).
  rewrite nth_error_map, Hv in X. simpl in X. injection X as X.
  unfold prevOf in X. destruct (coinbase v); [discriminate X|].
  destruct (json_tx up (tx_path (vin_txid v))) as [t|] eqn:J; [|discriminate X].
  injection X as ->. apply Hup in J. unfold NoNegativeOutput in J.
  rewrite Forall_forall in J. apply J.
  unfold Array.get in G. destruct (vin_vout v <? 0)%Z; [discriminate G|].
  eapply nth_error_In; eauto.
Qed.

(** C4, as the code has it: in a successful answer, when the upstream
    reports no negative output value, [totalInput] and [totalOutput] are
    not negative; a declared fee is reported as it is, negative or not,
    so the fee is not negative provided the declared fee, if there is
    one, is not. *)
Theorem amounts_nonnegative up raw r log :
  (forall path t, json_tx up path = Some t -> NoNegativeOutput t) ->
  GET up raw = (Json r, log) ->
  (0 <= totalInput r)%Z /\ (0 <= totalOutput r)%Z /\
  exists tx, json_tx up (tx_path (cleaned raw)) = Some tx /\
    (forall f, tx_fee tx = Some f -> fee r = f) /\
    ((forall f, tx_fee tx = Some f -> (0 <= f)%Z) -> (0 <= fee r)%Z).
Proof.
  intros Hup H. apply GET_Json in H.
  destruct H as (_ & tx & hex & os & prevTxs & Htx & _ & _ & M & -> & _).
  simpl. split; [|split].
  - apply sum_nonneg; [lia|]. now apply enrichInput_nonneg with (up := up).
  - apply sum_nonneg; [lia|]. exact (Hup _ _ Htx).
  - exists tx. split; auto. destruct (tx_fee tx) as [f|].
    + split; [intros g [= <-]; reflexivity|]. intros Hf. now apply Hf.
    + split; [discriminate|]. intros _. lia.
Qed.

Lemma scenario_up_nonneg declared path t :
  json_tx (scenario_up declared) path = Some t -> NoNegativeOutput t.
Proof.
  simpl. unfold serve. simpl.
  destruct (JsString.eqb (tx_path sample_id) path);
    [|destruct (JsString.eqb (tx_path parent1_id) path);
      [|destruct (JsString.eqb (tx_path parent2_id) path)]];
    simpl; intros [= <-]; repeat constructor; simpl; lia.
Qed.

Lemma amounts_nonnegative_witness :
  (0 <= totalInput (scenario_result (Some (-1)%Z)))%Z /\
  (0 <= totalOutput (scenario_result (Some (-1)%Z)))%Z /\
  fee (scenario_result (Some (-1)%Z)) = (-1)%Z.
Proof.
  destruct (@amounts_nonnegative (scenario_up (Some (-1)%Z)) (Some sample_id) _ _
              (scenario_up_nonneg (Some (-1)%Z)) (scenario_GET (Some (-1)%Z)))
    as (Hi & Ho & tx & Htx & Hf & _).
  split; [exact Hi|]. split; [exact Ho|].
  apply Hf. injection Htx as <-. reflexivity.
Defined.

(** C4, as stated, fails: the upstream declares a fee of -1 for the
    scenario; the answer succeeds with that fee, although the fallback
    [max (totalInput - totalOutput) 0] would be 1000. *)
Lemma negative_declared_fee_reported :
  Hex64 sample_id /\
  fst (GET (scenario_up (Some (-1)%Z)) (Some sample_id)) =
    Json (scenario_result (Some (-1)%Z)) /\
  fee (scenario_result (Some (-1)%Z)) = (-1)%Z /\
  ~ (0 <= fee (scenario_result (Some (-1)%Z)))%Z /\
  Z.max (totalInput (scenario_result (Some (-1)%Z))
         - totalOutput (scenario_result (Some (-1)%Z))) 0 = 1000%Z.
Proof.
  split; [exact sample_id_hex|]. split; [reflexivity|]. split; [reflexivity|].
  split; [|reflexivity]. simpl. lia.
Qed.

(** Negative output values, if the upstream reports them, go into the
    totals as they are. *)
Example negative_values_add_up :
  exists r log,
    GET (serve_main (mkTx sample_id None [spend parent1_id 0]
                       [ {| vout_value := -3; scriptpubkey_address := None;
                            scriptpubkey_type := None |} ])
           [(tx_path parent1_id,
             mkTx parent1_id None []
               [ {| vout_value := -7; scriptpubkey_address := None;
                    scriptpubkey_type := None |} ])])
        (Some sample_id) = (Json r, log) /\
    totalInput r = (-7)%Z /\ totalOutput r = (-3)%Z /\ fee r = 0%Z.
Proof. eexists. eexists. split; [reflexivity|]. repeat split. Qed.

(** C8: an input flagged coinbase causes no upstream read (its element
    of the join leaves the call log as it is, and the ancestor reads of
    a request are those of the inputs that are not coinbase), and in the
    answer it has value 0, no address, no script type and the coinbase
    flag set. *)
Theorem coinbase_input_resolution up raw r log :
  GET up raw = (Json r, log) ->
  exists tx, json_tx up (tx_path (cleaned raw)) = Some tx /\
    log = mainPaths (cleaned raw)
          ++ map (fun v => tx_path (vin_txid v))
                 (filter (fun v => negb (coinbase v)) (tx_vin tx)) /\
    forall i v, nth_error (tx_vin tx) i = Some v -> is_coinbase v = Some true ->
      (forall log0, fetchPrev up v log0 = (Some None, log0)) /\
      nth_error (inputs r) i =
        Some {| in_txid := vin_txid v; in_vout := vin_vout v; in_value := 0;
                in_address := None; in_scriptType := None; isCoinbase := true |}.
Proof.
  intros H. apply GET_Json in H.
  destruct H as (_ & tx & hex & os & prevTxs & Htx & _ & _ & M & -> & ->).
  exists tx. split; auto. split; [reflexivity|].
  intros i v Hv Hc.
  assert (C : coinbase v = true) by (unfold coinbase; now rewrite Hc).
  split.
  - intros log0. unfold fetchPrev. now rewrite C.
  - rewrite (@enrichedInputs_nth up _ _ _ _ _ _ _ None M Hv).
    + now rewrite C.
    + unfold prevOf. now rewrite C.
Qed.

Lemma reward_GET :
  GET reward_up (Some sample_id) =
  (Json (assemble sample_id
           (mkTx sample_id (Some 0%Z) [reward_vin] [pay 5000000000 "M"])
           (JsString.lit "0200")
           [ {| os_spent := false |}; {| os_spent := true |} ] [None]),
   mainPaths sample_id).
Proof. reflexivity. Qed.

Lemma coinbase_input_resolution_witness :
  exists r,
    GET reward_up (Some sample_id) = (Json r, mainPaths sample_id) /\
    nth_error (inputs r) 0 =
      Some {| in_txid := repeat 48%N 64; in_vout := 4294967295; in_value := 0;
              in_address := None; in_scriptType := None; isCoinbase := true |}.
Proof.
  eexists. split; [exact reward_GET|].
  destruct (@coinbase_input_resolution reward_up (Some sample_id) _ _ reward_GET)
    as (tx & Htx & _ & Hin).
  injection Htx as <-.
  exact (proj2 (Hin 0 reward_vin eq_refl eq_refl)).
Defined.

(** C9: when every read of the request succeeds, the request succeeds,
    and an input that is not coinbase and whose output index is outside
    the outputs of its ancestor has value 0, no address and no script
    type in the answer. *)
Theorem dangling_index_degrades up raw tx :
  Hex64 (cleaned raw) ->
  json_tx up (tx_path (cleaned raw)) = Some tx ->
  text up (hex_path (cleaned raw)) <> None ->
  json_outspends up (outspends_path (cleaned raw)) <> None ->
  (forall v, In v (tx_vin tx) -> coinbase v = false ->
             json_tx up (tx_path (vin_txid v)) <> None) ->
  exists r log, GET up raw = (Json r, log) /\
    forall i v p,
      nth_error (tx_vin tx) i = Some v ->
      coinbase v = false ->
      json_tx up (tx_path (vin_txid v)) = Some p ->
      (vin_vout v < 0 \/ Z.of_nat (length (tx_vout p)) <= vin_vout v)%Z ->
      nth_error (inputs r) i =
        Some {| in_txid := vin_txid v; in_vout := vin_vout v; in_value := 0;
                in_address := None; in_scriptType := None; isCoinbase := false |}.
Proof.
  intros Hid Htx Hhex Hos Hall.
  rewrite (GET_accepted up _ Hid), explain_run, Htx.
  destruct (text up _) as [hex|]; [|congruence].
  destruct (json_outspends up _) as [os|]; [|congruence].
  destruct (all_some_total (map (prevOf up) (tx_vin tx))) as [prevTxs P].
  { intros a Ha. apply in_map_iff in Ha. destruct Ha as (v & <- & Hv).
    unfold prevOf. destruct (coinbase v) eqn:C; [discriminate|].
    specialize (Hall v Hv C).
    destruct (json_tx up (tx_path (vin_txid v))); [discriminate | congruence]. }
  rewrite P. simpl. eexists. eexists. split; [reflexivity|].
  intros i v p Hv C Hp Hrange.
  apply all_some_Some in P.
  rewrite (@enrichedInputs_nth up _ _ _ _ _ _ _ (Some p) P Hv).
  - rewrite (proj2 (get_out_of_range _ _) Hrange). now rewrite C.
  - unfold prevOf. now rewrite C, Hp.
Qed.

Lemma dangling_index_degrades_witness :
  exists r log, GET dangling_up (Some sample_id) = (Json r, log) /\
    nth_error (inputs r) 0 =
      Some {| in_txid := parent1_id; in_vout := 7; in_value := 0;
              in_address := None; in_scriptType := None; isCoinbase := false |}.
Proof.
  destruct (@dangling_index_degrades dangling_up (Some sample_id)
              (mkTx sample_id None [spend parent1_id 7] [pay 100 "B"]))
    as (r & log & HG & Hin).
  - exact sample_id_hex.
  - reflexivity.
  - discriminate.
  - discriminate.
  - intros v [<- | []] _. discriminate.
  - exists r, log. split; [exact HG|].
    apply (Hin 0 (spend parent1_id 7) parent1); [reflexivity .. | right; simpl; lia].
Defined.

(* ================================================================== *)
(** ** Further properties of the handler *)

Lemma GET_answers up raw :
  Hex64 (cleaned raw) ->
  GET up raw =
  match json_tx up (tx_path (cleaned raw)), text up (hex_path (cleaned raw)),
        json_outspends up (outspends_path (cleaned raw)) with
  | Some tx, Some hex, Some os =>
      match all_some (map (prevOf up) (tx_vin tx)) with
      | Some prevTxs =>
          (Json (assemble (cleaned raw) tx hex os prevTxs),
           mainPaths (cleaned raw) ++ prevPaths (tx_vin tx))
      | None =>
          (JsonError 502 UPSTREAM_FAILED,
           mainPaths (cleaned raw) ++ prevPaths (tx_vin tx))
      end
  | _, _, _ => (JsonError 502 UPSTREAM_FAILED, mainPaths (cleaned raw))
  end.
Proof.
  intros H. rewrite (GET_accepted up _ H), explain_run. simpl.
  destruct (json_tx up _) as [tx|]; [|reflexivity].
  destruct (text up _) as [hex|]; [|reflexivity].
  destruct (json_outspends up _) as [os|]; [|reflexivity].
  destruct (all_some (map (prevOf up) (tx_vin tx))); reflexivity.
Qed.

(** X1: for a valid identifier, when the read of the transaction, of
    its hex or of its spend status fails, the answer is the 502 error
    and the three main paths are all that was requested: no ancestor is
    read. *)
Theorem main_read_failure up raw :
  Hex64 (cleaned raw) ->
  json_tx up (tx_path (cleaned raw)) = None \/
  text up (hex_path (cleaned raw)) = None \/
  json_outspends up (outspends_path (cleaned raw)) = None ->
  GET up raw = (JsonError 502 UPSTREAM_FAILED, mainPaths (cleaned raw)).
Proof.
  intros H F. rewrite (GET_answers up _ H).
  destruct (json_tx up _) as [tx|]; [|reflexivity].
  destruct (text up _) as [hex|]; [|reflexivity].
  destruct (json_outspends up _) as [os|]; [|reflexivity].
  destruct F as [F | [F | F]]; discriminate F.
Qed.

Lemma main_read_failure_witness :
  GET offline (Some sample_id) =
  (JsonError 502 UPSTREAM_FAILED, mainPaths (cleaned (Some sample_id))).
Proof.
  apply (@main_read_failure offline (Some sample_id) sample_id_hex).
  left. reflexivity.
Defined.

(** X2: the handler makes no upstream request exactly when the trimmed
    identifier is not 64 hexadecimal characters, and that is exactly
    when it answers with status 400. *)
Theorem rejection_iff up raw :
  (snd (GET up raw) = [] <-> ~ Hex64 (cleaned raw)) /\
  ((exists e, fst (GET up raw) = JsonError 400 e) <-> ~ Hex64 (cleaned raw)).
Proof.
  destruct (Regex.is_txid (cleaned raw)) eqn:E.
  - apply is_txid_spec in E. rewrite (GET_answers up _ E).
    split; (split; [|contradiction]); intros X; exfalso;
      destruct (json_tx up _) as [tx|];
      try destruct (text up _) as [hex|];
      try destruct (json_outspends up _) as [os|];
      try destruct (all_some (map (prevOf up) (tx_vin tx)));
      simpl in X; try discriminate X; destruct X as [e X]; discriminate X.
  - assert (N : ~ Hex64 (cleaned raw))
      by (intros X; apply is_txid_spec in X; congruence).
    rewrite (GET_rejected up _ N). simpl. split; split; auto.
    intros _. eauto.
Qed.

(** X3: the handler answers with a result exactly when the trimmed
    identifier is valid, the transaction, its hex and its spend status
    are read, and so is the ancestor of every input that is not
    coinbase. *)
Theorem success_iff up raw :
  (exists r log, GET up raw = (Json r, log)) <->
  Hex64 (cleaned raw) /\
  exists tx, json_tx up (tx_path (cleaned raw)) = Some tx /\
    text up (hex_path (cleaned raw)) <> None /\
    json_outspends up (outspends_path (cleaned raw)) <> None /\
    forall v, In v (tx_vin tx) -> coinbase v = false ->
              json_tx up (tx_path (vin_txid v)) <> None.
Proof.
  split.
  - intros (r & log & H). apply GET_Json in H.
    destruct H as (Hid & tx & hex & os & prevTxs & Htx & Hhex & Hos & M & _).
    split; auto. exists tx. repeat split; try congruence.
    intros v Hv C F.
    assert (X : In (prevOf up v) (map Some prevTxs))
      by (rewrite <- M; now apply in_map).
    unfold prevOf in X. rewrite C, F in X. simpl in X.
    apply in_map_iff in X. destruct X as (? & X & _). discriminate X.
  - intros (Hid & tx & Htx & Hhex & Hos & Hall).
    rewrite (GET_answers up _ Hid), Htx.
    destruct (text up _) as [hex|]; [|congruence].
    destruct (json_outspends up _) as [os|]; [|congruence].
    destruct (all_some_total (map (prevOf up) (tx_vin tx))) as [prevTxs P].
    { intros a Ha. apply in_map_iff in Ha. destruct Ha as (v & <- & Hv).
      unfold prevOf. destruct (coinbase v) eqn:C; [discriminate|].
      specialize (Hall v Hv C).
      destruct (json_tx up (tx_path (vin_txid v))); [discriminate | congruence]. }
    rewrite P. eauto.
Qed.

(** X4: in a successful answer, an input that is not coinbase and whose
    output index names an output of its ancestor carries the value, the
    address and the script type of that output. *)
Theorem resolved_input_copies up raw r log tx i v p o :
  GET up raw = (Json r, log) ->
  json_tx up (tx_path (cleaned raw)) = Some tx ->
  nth_error (tx_vin tx) i = Some v ->
  coinbase v = false ->
  json_tx up (tx_path (vin_txid v)) = Some p ->
  Array.get (tx_vout p) (vin_vout v) = Some o ->
  nth_error (inputs r) i =
    Some {| in_txid := vin_txid v; in_vout := vin_vout v;
            in_value := vout_value o;
            in_address := scriptpubkey_address o;
            in_scriptType := scriptpubkey_type o;
            isCoinbase := false |}.
Proof.
  intros H Htx Hv C Hp G. apply GET_Json in H.
  destruct H as (_ & tx' & hex & os & prevTxs & Htx' & _ & _ & M & -> & _).
  assert (tx' = tx) by congruence. subst tx'.
  rewrite (@enrichedInputs_nth up _ _ _ _ _ _ _ (Some p) M Hv).
  - now rewrite G, C.
  - unfold prevOf. now rewrite C, Hp.
Qed.

Lemma resolved_input_copies_witness :
  nth_error (inputs (scenario_result None)) 1 =
    Some {| in_txid := parent2_id; in_vout := 1; in_value := 30000;
            in_address := Some (JsString.lit "C");
            in_scriptType := Some (JsString.lit "v0_p2wpkh");
            isCoinbase := false |}.
Proof.
  exact (@resolved_input_copies (scenario_up None) (Some sample_id) _ _
           (scenario_tx None) 1 (spend parent2_id 1) parent2 (pay 30000 "C")
           (scenario_GET None) eq_refl eq_refl eq_refl eq_refl eq_refl).
Defined.

Lemma fold_left_Zsum {A} (f : A -> Z) (l : list A) : forall acc,
  fold_left (fun sum x => sum + f x)%Z l acc = (acc + Zsum (map f l))%Z.
Proof.
  induction l as [|x r IH]; intros acc; simpl; [lia|]. rewrite IH. lia.
Qed.


(** X5: in a successful answer the inputs and the outputs are as many
    as those of the upstream transaction, and [vinCount] and [voutCount]
    are the lengths of the two lists of the answer. *)
Theorem response_shape up raw r log :
  GET up raw = (Json r, log) ->
  exists tx, json_tx up (tx_path (cleaned raw)) = Some tx /\
    length (inputs r) = length (tx_vin tx) /\
    length (outputs r) = length (tx_vout tx) /\
    vinCount (details r) = length (inputs r) /\
    voutCount (details r) = length (outputs r).
Proof.
  intros H. apply GET_Json in H.
  destruct H as (_ & tx & hex & os & prevTxs & Htx & _ & _ & _ & -> & _).
  exists tx. simpl. unfold Array.mapi. rewrite !mapi_from_length. auto.
Qed.

Lemma response_shape_witness :
  exists tx, json_tx (scenario_up None) (tx_path (cleaned (Some sample_id))) = Some tx /\
    length (inputs (scenario_result None)) = length (tx_vin tx) /\
    length (outputs (scenario_result None)) = length (tx_vout tx) /\
    vinCount (details (scenario_result None)) = length (inputs (scenario_result None)) /\
    voutCount (details (scenario_result None)) = length (outputs (scenario_result None)).
Proof.
  exact (@response_shape (scenario_up None) (Some sample_id) _ _ (scenario_GET None)).
Defined.

(** X6: in a successful answer the output at position [i] carries the
    trimmed identifier of the request, [i] as its index, the value, the
    address and the script type of the upstream output at [i], and the
    spent flag of the spend status at [i], [false] when the spend status
    has no entry there. *)
Theorem output_enrichment up raw r log :
  GET up raw = (Json r, log) ->
  exists tx os,
    json_tx up (tx_path (cleaned raw)) = Some tx /\
    json_outspends up (outspends_path (cleaned raw)) = Some os /\
    forall i o, nth_error (tx_vout tx) i = Some o ->
      nth_error (outputs r) i =
        Some {| out_txid := cleaned raw; out_vout := i;
                out_value := vout_value o;
                out_address := scriptpubkey_address o;
                out_scriptType := scriptpubkey_type o;
                spent := match nth_error os i with
                         | Some s => os_spent s
                         | None => false
                         end |}.
Proof.
  intros H. apply GET_Json in H.
  destruct H as (_ & tx & hex & os & prevTxs & Htx & _ & Hos & _ & -> & _).
  exists tx, os. repeat split; auto.
  intros i o Ho. simpl. now rewrite mapi_nth, Ho.
Qed.

Lemma output_enrichment_witness :
  nth_error (outputs (scenario_result None)) 1 =
    Some {| out_txid := sample_id; out_vout := 1; out_value := 9000;
            out_address := Some (JsString.lit "B");
            out_scriptType := Some (JsString.lit "v0_p2wpkh");
            spent := true |}.
Proof.
  destruct (@output_enrichment (scenario_up None) (Some sample_id) _ _
              (scenario_GET None)) as (tx & os & Htx & Hos & Hout).
  injection Htx as <-. injection Hos as <-.
  exact (Hout 1 (pay 9000 "B") eq_refl).
Defined.



(** X8: when every input of the transaction is coinbase, a successful
    answer has [totalInput] 0 and the three main paths are all that was
    requested. *)
Theorem all_coinbase_request up raw r log tx :
  GET up raw = (Json r, log) ->
  json_tx up (tx_path (cleaned raw)) = Some tx ->
  (forall v, In v (tx_vin tx) -> is_coinbase v = Some true) ->
  totalInput r = 0%Z /\ log = mainPaths (cleaned raw).
Proof.
  intros H Htx Hall. apply GET_Json in H.
  destruct H as (_ & tx' & hex & os & prevTxs & Htx' & _ & _ & M & -> & ->).
  assert (tx' = tx) by congruence. subst tx'.
  assert (C : forall v, In v (tx_vin tx) -> coinbase v = true)
    by (intros v Hv; unfold coinbase; now rewrite (Hall v Hv)).
  split.
  - simpl. rewrite fold_left_Zsum. unfold Array.mapi.
    assert (Z0 : forall l, (forall e, In e l -> in_value e = 0%Z) ->
                 Zsum (map in_value l) = 0%Z).
    { induction l as [|e l IH]; simpl; intros E; auto.
      rewrite (E e), IH by auto. reflexivity. }
    rewrite Z0; [reflexivity|].
    intros e He. apply mapi_from_In in He. destruct He as (i & v & Hv & ->).
    assert (P : prevOf up v = Some None)
      by (unfold prevOf; now rewrite (C v (nth_error_In _ _ Hv))).
    pose proof (@enrichedInputs_nth up (cleaned raw) tx hex os prevTxs i v None M Hv P) as X.
    simpl in X. rewrite mapi_nth, Hv in X. simpl in X. injection X as X.
    simpl. now rewrite X.
  - unfold prevPaths.
    assert (F : forall l, (forall v, In v l -> coinbase v = true) ->
                filter (fun v => negb (coinbase v)) l = []).
    { induction l as [|v l IH]; simpl; intros E; auto.
      rewrite (E v) by auto. simpl. apply IH. intros; apply E; auto. }
    rewrite (F _ C). simpl. reflexivity.
Qed.

Lemma all_coinbase_request_witness :
  exists r log, GET reward_up (Some sample_id) = (Json r, log) /\
    totalInput r = 0%Z /\ log = mainPaths (cleaned (Some sample_id)).
Proof.
  eexists. eexists. split; [exact reward_GET|].
  apply (@all_coinbase_request reward_up (Some sample_id) _ _
           (mkTx sample_id (Some 0%Z) [reward_vin] [pay 5000000000 "M"])
           reward_GET eq_refl).
  intros v [<- | []]. reflexivity.
Defined.

(* ================================================================== *)
(** ** Further properties of the change heuristic *)

Lemma guess_selects ins outs :
  2 <= length outs ->
  exists m, guessChangeOutputIndex ins outs = Some (cand_idx m) /\
    In m (base ins outs) /\
    forall c, In c (base ins outs) ->
      (cand_value m <= cand_value c)%Z /\
      (cand_value c = cand_value m -> cand_idx m <= cand_idx c).
Proof.
  intros H. rewrite guess_eq, (proj2 (Nat.ltb_ge _ _) H).
  assert (Hne : outs <> []) by (destruct outs; simpl in H; [lia | discriminate]).
  destruct (first_min cand_value (base ins outs)) as [m|] eqn:E.
  - exists m. split; [reflexivity|].
    exact (first_min_spec cand_value (base_sorted ins outs) E).
  - exfalso. revert E. apply first_min_nonempty. now apply base_nonempty.
Qed.

(** X9: the heuristic returns [null] only when there are fewer than two
    outputs; with two outputs or more it always names one. *)
Theorem guess_null_iff ins outs :
  guessChangeOutputIndex ins outs = None <-> length outs < 2.
Proof.
  split.
  - intros E. destruct (Nat.lt_ge_cases (length outs) 2) as [L | L]; auto.
    destruct (@guess_selects ins _ L) as (m & G & _). congruence.
  - intros L. unfold guessChangeOutputIndex.
    now rewrite (proj2 (Nat.ltb_lt _ _) L).
Qed.



(** X11: with at least two outputs, when exactly one output has a
    non-empty address that is also the address of an input, the
    heuristic returns that output, whatever its value. *)
Theorem single_match_is_change ins outs i o :
  2 <= length outs ->
  ToSender ins outs i o ->
  (forall j p, ToSender ins outs j p -> j = i) ->
  guessChangeOutputIndex ins outs = Some i.
Proof.
  intros L M U. destruct (@guess_selects ins _ L) as (m & G & Hin & _).
  rewrite G. f_equal. apply base_In in Hin. destruct Hin as [[_ Hc] _].
  apply (U _ (cand_o m)). apply Hc. eauto.
Qed.

Lemma single_match_is_change_witness :
  guessChangeOutputIndex scenario_inputs dust_outputs = Some 1.
Proof.
  apply (@single_match_is_change scenario_inputs dust_outputs 1
           {| out_txid := JsString.lit "t"; out_vout := 1; out_value := 300;
              out_address := Some (JsString.lit "C"); out_scriptType := None;
              spent := false |}).
  - simpl; lia.
  - split; [reflexivity|]. exists (JsString.lit "C").
    split; [reflexivity|]. split; [discriminate|].
    eexists. split; [right; left; reflexivity | reflexivity].
  - intros j p [Ho (a & Ha & _ & inp & Hinp & Hi)].
    destruct j as [|[|j]]; auto; unfold IsOutput in Ho; simpl in Ho.
    + injection Ho as <-. simpl in Ha. injection Ha as <-.
      destruct Hinp as [<- | [<- | []]]; discriminate Hi.
    + destruct j; discriminate Ho.
Defined.

(** X12: the heuristic uses the inputs only through the set of their
    non-empty addresses: two lists of inputs with the same non-empty
    addresses give the same answer. *)
Theorem guess_by_addresses ins1 ins2 outs :
  (forall a, a <> [] -> (InputAddress ins1 a <-> InputAddress ins2 a)) ->
  guessChangeOutputIndex ins1 outs = guessChangeOutputIndex ins2 outs.
Proof.
  intros E. rewrite !guess_eq.
  assert (F : forall c, toInputAddress ins1 c = toInputAddress ins2 c).
  { intros c. apply eq_true_iff_eq. rewrite !toInputAddress_spec.
    split; intros (a & Ha & Hn & Hi); exists a; repeat split; auto;
      now apply (E a Hn). }
  assert (C : candidates ins1 outs = candidates ins2 outs).
  { unfold candidates.
    now rewrite (filter_ext _ _ F (allCandidates outs)). }
  unfold base. now rewrite C.
Qed.

Lemma guess_by_addresses_witness :
  guessChangeOutputIndex (rev scenario_inputs ++ scenario_inputs) scenario_outputs =
  guessChangeOutputIndex scenario_inputs scenario_outputs.
Proof.
  apply (@guess_by_addresses (rev scenario_inputs ++ scenario_inputs)
           scenario_inputs scenario_outputs).
  intros a _. unfold InputAddress. split; intros (inp & Hin & Ha); exists inp;
    split; auto.
  - apply in_app_or in Hin. destruct Hin as [Hin | Hin]; auto.
    now apply in_rev.
  - apply in_or_app. now right.
Defined.

(** X13: when no input has a non-empty address, and there are at least
    two outputs, the heuristic returns an output above 1000 if there is
    one, and the first of the smallest outputs among those above 1000,
    or among all of them when none is above 1000. *)
Theorem guess_without_addresses ins outs :
  (forall inp, In inp ins -> truthy (in_address inp) = false) ->
  2 <= length outs ->
  exists i o, guessChangeOutputIndex ins outs = Some i /\
    nth_error outs i = Some o /\
    forall j p, nth_error outs j = Some p ->
      ((1000 < out_value p)%Z -> (1000 < out_value o)%Z) /\
      ((1000 < out_value p)%Z \/ (out_value o <= 1000)%Z ->
       (out_value o <= out_value p)%Z /\ (out_value p = out_value o -> i <= j)).
Proof.
  intros Hno L. destruct (@guess_selects ins _ L) as (m & G & Hin & Hmin).
  assert (NoM : forall j p, ~ ToSender ins outs j p).
  { intros j p [_ (a & _ & Hn & inp & Hinp & Ha)].
    specialize (Hno inp Hinp). rewrite Ha in Hno.
    apply truthy_Some in Hn. congruence. }
  assert (Cand : forall j p, nth_error outs j = Some p ->
                 IsCandidate outs (ToSender ins outs) j p).
  { intros j p Hp. split; auto. intros (j' & p' & X). now apply NoM in X. }
  apply base_In in Hin. destruct Hin as [[Ho _] Hd].
  exists (cand_idx m), (cand_o m).
  split; [exact G|]. split; [exact Ho|]. intros j p Hp. split.
  - intros Hv. apply Hd. exists j, p. split; auto.
  - intros Hcase. apply (Hmin {| cand_o := p; cand_idx := j |}).
    apply base_In. simpl. split; [now apply Cand|].
    intros X. destruct Hcase as [Hv | Hv]; auto.
    specialize (Hd X). lia.
Qed.

Lemma guess_without_addresses_witness :
  exists i o, guessChangeOutputIndex [] dust_outputs = Some i /\
    nth_error dust_outputs i = Some o /\ (1000 < out_value o)%Z.
Proof.
  destruct (@guess_without_addresses [] dust_outputs) as (i & o & G & Ho & Hmin).
  - intros inp [].
  - simpl; lia.
  - exists i, o. repeat split; auto.
    apply (proj1 (Hmin 0 _ eq_refl)). simpl. lia.
Defined.

(** X21: with at least two outputs, when some output has a non-empty
    address that is also the address of an input, the heuristic returns
    such an output: a match goes before any output that is no match,
    whatever the values. *)
Theorem match_takes_precedence ins outs :
  2 <= length outs ->
  (exists j p, ToSender ins outs j p) ->
  exists i o, guessChangeOutputIndex ins outs = Some i /\ ToSender ins outs i o.
Proof.
  intros L M. destruct (@guess_selects ins _ L) as (m & G & Hin & _).
  apply base_In in Hin. destruct Hin as [[_ Hc] _].
  exists (cand_idx m), (cand_o m). split; [exact G | now apply Hc].
Qed.

Lemma match_takes_precedence_witness :
  exists i o, guessChangeOutputIndex scenario_inputs dust_outputs = Some i /\
              ToSender scenario_inputs dust_outputs i o.
Proof.
  apply (@match_takes_precedence scenario_inputs dust_outputs).
  - simpl; lia.
  - exists 1. eexists. split; [reflexivity|]. exists (JsString.lit "C").
    split; [reflexivity|]. split; [discriminate|].
    eexists. split; [right; left; reflexivity | reflexivity].
Defined.




(* ================================================================== *)
(** ** Properties of the samples route *)

(** X15: when the samples route answers with identifiers, they are the
    identifiers of the first five recent transactions of the upstream,
    in its order: all of them when the upstream lists five or fewer,
    and never more than five. *)
Theorem samples_listing recent ids log :
  Samples.GET recent = (Samples.Json ids, log) ->
  exists data, recent Samples.recent_path = Some data /\
    ids = firstn 5 (map Samples.recent_txid data) /\
    length ids = Nat.min 5 (length data) /\
    (length data <= 5 -> ids = map Samples.recent_txid data).
Proof.
  unfold Samples.GET, Fetch.request. intros H.
  destruct (recent Samples.recent_path) as [data|]; [|discriminate H].
  assert (E : ids = map Samples.recent_txid (firstn 5 data)) by congruence.
  clear H. subst ids. exists data. split; [reflexivity|].
  split; [symmetry; apply firstn_map|]. split.
  - now rewrite length_map, length_firstn.
  - intros L. now rewrite firstn_all2.
Qed.

Lemma samples_seven :
  Samples.GET recent_seven =
  (Samples.Json (map (fun c => repeat c 64) [48; 49; 50; 51; 52]%N),
   [Samples.recent_path]).
Proof. reflexivity. Qed.

Lemma samples_listing_witness :
  length (map (fun c : N => repeat c 64) [48; 49; 50; 51; 52]%N) = 5.
Proof.
  destruct (@samples_listing recent_seven _ _ samples_seven)
    as (data & Hd & _ & Hl & _).
  injection Hd as <-. exact Hl.
Defined.

(** X16: the samples route makes exactly one upstream request, for the
    recent transactions, and answers with status 502 exactly when that
    read fails. *)
Theorem samples_one_call recent :
  snd (Samples.GET recent) = [Samples.recent_path] /\
  (fst (Samples.GET recent) = Samples.JsonError 502 Samples.SAMPLES_FAILED <->
   recent Samples.recent_path = None) /\
  ((exists ids, fst (Samples.GET recent) = Samples.Json ids) <->
   recent Samples.recent_path <> None).
Proof.
  unfold Samples.GET, Fetch.request.
  destruct (recent Samples.recent_path) as [data|]; simpl.
  - split; [reflexivity|]. split; split.
    + discriminate.
    + discriminate.
    + discriminate.
    + eauto.
  - split; [reflexivity|]. split; split.
    + reflexivity.
    + reflexivity.
    + intros [ids X]. discriminate X.
    + congruence.
Qed.

(* ================================================================== *)
(** ** Properties of the page helpers *)

(** X17: [formatScriptType] never returns the empty string. *)
Theorem formatScriptType_nonempty s : Page.formatScriptType s <> [].
Proof.
  unfold Page.formatScriptType. destruct s as [s|]; [|discriminate].
  destruct s as [|c r]; [discriminate|]. simpl negb. cbv iota.
  repeat match goal with
  | |- (if ?b then _ else _) <> [] => destruct b; [discriminate|]
  end.
  discriminate.
Qed.

(** X18: [formatScriptType] returns a script type that is not empty and
    not one of the five it knows as it is. *)
Theorem formatScriptType_unknown s :
  s <> [] -> ~ In s Page.known_tags -> Page.formatScriptType (Some s) = s.
Proof.
  intros Hn Hk. unfold Page.formatScriptType.
  destruct s as [|c r]; [congruence|]. simpl negb. cbv iota.
  repeat match goal with
  | |- (if JsString.eqb ?a ?b then _ else _) = _ =>
      let E := fresh "E" in
      destruct (JsString.eqb a b) eqn:E;
      [apply JsString_eqb_eq in E; exfalso; apply Hk; rewrite E;
       unfold Page.known_tags; simpl; tauto | clear E]
  end.
  reflexivity.
Qed.

Lemma formatScriptType_unknown_witness :
  Page.formatScriptType (Some (JsString.lit "v0_p2wpkh")) = JsString.lit "v0_p2wpkh".
Proof.
  apply (@formatScriptType_unknown (JsString.lit "v0_p2wpkh")).
  - discriminate.
  - unfold Page.known_tags. simpl. intros [H | [H | [H | [H | [H | []]]]]];
      discriminate H.
Defined.

(** X19: from a step between 1 and 5, the previous and the next step
    are again between 1 and 5; previous changes nothing only at step 1
    and next changes nothing only at step 5. *)
Theorem step_navigation_range step :
  (1 <= step <= 5)%Z ->
  (1 <= Page.goPrev step <= 5)%Z /\ (1 <= Page.goNext step <= 5)%Z /\
  (Page.goPrev step = step <-> step = 1%Z) /\
  (Page.goNext step = step <-> step = 5%Z).
Proof.
  intros H. unfold Page.goPrev, Page.goNext, Page.or_else.
  destruct (Z.eqb_spec (Z.max 1 (step - 1)) 0), (Z.eqb_spec (Z.min 5 (step + 1)) 0);
    lia.
Qed.

Lemma step_navigation_range_witness :
  (1 <= Page.goPrev 3 <= 5)%Z /\ (1 <= Page.goNext 3 <= 5)%Z /\
  (Page.goPrev 3 = 3%Z <-> 3%Z = 1%Z) /\ (Page.goNext 3 = 3%Z <-> 3%Z = 5%Z).
Proof.
  apply (@step_navigation_range 3%Z). lia.
Defined.

(** X20: next undoes previous from every step after the first, and
    previous undoes next from every step before the last. *)
Theorem step_navigation_inverse step :
  (1 <= step <= 5)%Z ->
  ((1 < step)%Z -> Page.goNext (Page.goPrev step) = step) /\
  ((step < 5)%Z -> Page.goPrev (Page.goNext step) = step).
Proof.
  intros H. unfold Page.goPrev, Page.goNext, Page.or_else.
  split; intros L.
  - destruct (Z.eqb_spec (Z.max 1 (step - 1)) 0); [lia|].
    destruct (Z.eqb_spec (Z.min 5 (Z.max 1 (step - 1) + 1)) 0); lia.
  - destruct (Z.eqb_spec (Z.min 5 (step + 1)) 0); [lia|].
    destruct (Z.eqb_spec (Z.max 1 (Z.min 5 (step + 1) - 1)) 0); lia.
Qed.

Lemma step_navigation_inverse_witness :
  Page.goNext (Page.goPrev 2) = 2%Z /\ Page.goPrev (Page.goNext 2) = 2%Z.
Proof.
  destruct (@step_navigation_inverse 2%Z) as [A B]; [lia|].
  split; [apply A | apply B]; lia.
Defined.
